(** * polite.paths: directories, directory maps and configuration provisioning

    A shallow embedding of [polite/paths.py] and of the properties its
    specification states about it.

    - Python strings are [string]; [None]-able arguments are [option].
    - The operating system is a [world]: a finite map from path spellings to
      file-system nodes, the interpreter's [sys.modules] table and a log of
      the library calls made so far.
    - Methods are computations in a state-and-exception monad over the
      receiving object and the world.  A raised exception keeps whatever the
      method had written before, as in Python.
    - [os.path] is modelled by its POSIX flavour ([posixpath]). *)

From Stdlib Require Import Ascii String.
From stdpp Require Import base option list gmap strings.

Set Default Proof Using "Type".
Set Warnings "-register-all".

(* ===================================================================== *)
(** * Strings and [posixpath] *)
(* ===================================================================== *)

Module posixpath.

Definition sep : ascii := "/"%char.
Definition curdir : string := ".".

Definition is_sep (c : ascii) : bool := bool_decide (c = sep).

(** [s.startswith('/')] *)
Definition startswith_sep (s : string) : bool :=
  match s with
  | String c _ => is_sep c
  | EmptyString => false
  end.

(** [s.endswith('/')] *)
Fixpoint endswith_sep (s : string) : bool :=
  match s with
  | EmptyString => false
  | String c EmptyString => is_sep c
  | String _ s' => endswith_sep s'
  end.

(** ['/' in s] *)
Fixpoint has_sep (s : string) : bool :=
  match s with
  | EmptyString => false
  | String c s' => is_sep c || has_sep s'
  end.

(** [s.rstrip('/')] *)
Fixpoint rstrip_sep (s : string) : string :=
  match s with
  | EmptyString => EmptyString
  | String c s' =>
      match rstrip_sep s' with
      | EmptyString => if is_sep c then EmptyString else String c EmptyString
      | r => String c r
      end
  end.

(** One step of [join(a, *p)]:
<<
    if b.startswith('/'):                 path = b
    elif path == '' or path.endswith('/'): path += b
    else:                                  path += '/' + b
>> *)
Definition join2 (path b : string) : string :=
  if startswith_sep b then b
  else if bool_decide (path = EmptyString) || endswith_sep path then path +:+ b
  else path +:+ "/" +:+ b.

(** [join(a, *p)] *)
Definition join (a : string) (p : list string) : string :=
  fold_left join2 p a.

(** [(p[:i], p[i:])] for [i = p.rfind('/') + 1] *)
Fixpoint rsplit_sep (p : string) : string * string :=
  match p with
  | EmptyString => (EmptyString, EmptyString)
  | String c s =>
      match rsplit_sep s with
      | (EmptyString, t) =>
          if is_sep c then (String c EmptyString, t)
          else (EmptyString, String c t)
      | (h, t) => (String c h, t)
      end
  end.

(** [split(p)]:
<<
    i = p.rfind('/') + 1
    head, tail = p[:i], p[i:]
    if head and head != '/'*len(head):
        head = head.rstrip('/')
    return head, tail
>> *)
Definition split (p : string) : string * string :=
  let '(head, tail) := rsplit_sep p in
  match rstrip_sep head with
  | EmptyString => (head, tail)
  | stripped => (stripped, tail)
  end.

Definition dirname (p : string) : string := fst (split p).
Definition basename (p : string) : string := snd (rsplit_sep p).

(** [head == '/'*len(head)] for a non-empty [head]: a spelling of the
    root directory. *)
Definition is_root (p : string) : bool :=
  negb (bool_decide (p = EmptyString)) && bool_decide (rstrip_sep p = EmptyString).

End posixpath.

(* ===================================================================== *)
(** * Python exceptions *)
(* ===================================================================== *)

(** The exception classes that [polite.paths] and the library calls it makes
    can raise, with the class hierarchy of Python 2; Python 3 merges
    [IOError] and [EnvironmentError] into [OSError] and keeps the relations
    used below.  The specification writes [InvalidState] for [ValueError],
    and [ParseError] for the YAML library's error. *)
Inductive pyclass :=
| BaseException | Exception | StandardError
| LookupError | KeyError
| ValueError | AttributeError | RuntimeError
| EnvironmentError | IOError | OSError
| shutil_Error
| YAMLError.

Definition pyclass_base (c : pyclass) : option pyclass :=
  match c with
  | BaseException => None
  | Exception => Some BaseException
  | StandardError => Some Exception
  | LookupError | ValueError | AttributeError | RuntimeError
  | EnvironmentError => Some StandardError
  | KeyError => Some LookupError
  | IOError | OSError | shutil_Error => Some EnvironmentError
  | YAMLError => Some Exception
  end.

#[global] Instance pyclass_eq_dec : EqDecision pyclass.
Proof. solve_decision. Defined.

Fixpoint issubclass_fuel (n : nat) (c d : pyclass) : bool :=
  if bool_decide (c = d) then true
  else match n, pyclass_base c with
       | S n', Some b => issubclass_fuel n' b d
       | _, _ => false
       end.

(** [issubclass(c, d)]; no chain of bases is longer than five. *)
Definition issubclass (c d : pyclass) : bool := issubclass_fuel 5 c d.

Inductive errno := EEXIST | ENOENT | ENOTDIR | EISDIR.

#[global] Instance errno_eq_dec : EqDecision errno.
Proof. solve_decision. Defined.

Record exception := Exc {
  exc_class : pyclass;
  exc_errno : option errno;
  exc_arg : string;
}.

#[global] Instance exception_eq_dec : EqDecision exception.
Proof. solve_decision. Defined.

(** [isinstance(e, c)], what [except c:] and [pytest.raises(c)] test. *)
Definition isinstance (e : exception) (c : pyclass) : bool :=
  issubclass (exc_class e) c.

Definition os_error (e : errno) (path : string) : exception := Exc OSError (Some e) path.
Definition io_error (e : errno) (path : string) : exception := Exc IOError (Some e) path.

(* ===================================================================== *)
(** * The world: file system, module table, call log *)
(* ===================================================================== *)

(** A file-system entry: a regular file with its content, or a directory.
    The file system maps a path, as it is spelled, to the entry it names:
    the model has no symbolic links, no permissions and no quotas, it does
    not identify different spellings of one path, and it gives the NUL
    character no special place in a name (the interpreter refuses such a
    name before the operating system sees it). *)
Inductive node :=
| File (content : string)
| Dir.

#[global] Instance node_eq_dec : EqDecision node.
Proof. solve_decision. Defined.

(** A loaded module, as [sys.modules] holds it; built-in modules have no
    [__file__]. *)
Record pymodule := PyModule { __file__ : option string }.

(** The library calls that reach the operating system. *)
Inductive oscall :=
| call_isdir (path : string)
| call_isfile (path : string)
| call_makedirs (path : string)
| call_copy (src dst : string)
| call_realpath (path : string)
| call_abspath (path : string)
| call_read (path : string)
| call_write (path : string).

#[global] Instance oscall_eq_dec : EqDecision oscall.
Proof. solve_decision. Defined.

(** The calls that can create or change a file-system entry. *)
Definition creates (c : oscall) : bool :=
  match c with
  | call_makedirs _ | call_copy _ _ | call_write _ => true
  | _ => false
  end.

Record world := World {
  files : gmap string node;
  sys_modules : gmap string pymodule;
  oslog : list oscall;
}.

Definition set_files (fs : gmap string node) (w : world) : world :=
  World fs (sys_modules w) (oslog w).
Definition log_call (c : oscall) (w : world) : world :=
  World (files w) (sys_modules w) (oslog w ++ [c]).

(* ===================================================================== *)
(** * File-system semantics of the library calls *)
(* ===================================================================== *)

Module fs.

(** The entry a path names; every spelling of the root names a directory. *)
Definition lookup_node (m : gmap string node) (p : string) : option node :=
  if posixpath.is_root p then Some Dir else m !! p.

(** [os.path.isdir], [os.path.isfile], [os.path.exists] *)
Definition isdir (m : gmap string node) (p : string) : bool :=
  bool_decide (lookup_node m p = Some Dir).
Definition isfile (m : gmap string node) (p : string) : bool :=
  match lookup_node m p with Some (File _) => true | _ => false end.
Definition exists_ (m : gmap string node) (p : string) : bool :=
  bool_decide (is_Some (lookup_node m p)).

(** The directory an entry is created in: the kernel looks past trailing
    separators, as [os.makedirs] does with its second [split]. *)
Definition parent (name : string) : string :=
  let '(head, tail) := posixpath.split name in
  if bool_decide (tail = EmptyString) then fst (posixpath.split head) else head.

Definition last_component (name : string) : string :=
  let '(head, tail) := posixpath.split name in
  if bool_decide (tail = EmptyString) then snd (posixpath.split head) else tail.

(** The directory [dir] can take a new entry: the empty spelling is the
    working directory. *)
Definition check_dir (m : gmap string node) (dir : string) : option errno :=
  if bool_decide (dir = EmptyString) then None
  else match lookup_node m dir with
       | Some Dir => None
       | Some (File _) => Some ENOTDIR
       | None => Some ENOENT
       end.

(** [os.mkdir(name)] *)
Definition mkdir (name : string) (m : gmap string node) : errno + gmap string node :=
  if bool_decide (name = EmptyString) then inl ENOENT
  else if exists_ m name then inl EEXIST
  else match check_dir m (parent name) with
       | Some e => inl e
       | None => inr (<[name := Dir]> m)
       end.

(** [os.makedirs(name)]:
<<
      head, tail = path.split(name)
      if not tail:
          head, tail = path.split(head)
      if head and tail and not path.exists(head):
          try:
              makedirs(head, mode)
          except OSError, e:
              if e.errno != errno.EEXIST:
                  raise
      mkdir(name, mode)
>>
    The recursion is on [head], which is shorter than [name]; [n] bounds its
    depth.  The special case for a last component [.] is left out: a path is
    its spelling here, and [xxx/newdir/.] is created like any other entry. *)
Fixpoint makedirs_fuel (n : nat) (name : string) (m : gmap string node)
  : exception + gmap string node :=
  match n with
  | O => inl (Exc RuntimeError None "maximum recursion depth exceeded")
  | S n' =>
      let head := parent name in
      let tail := last_component name in
      let made :=
        if negb (bool_decide (head = EmptyString))
           && negb (bool_decide (tail = EmptyString))
           && negb (exists_ m head)
        then match makedirs_fuel n' head m with
             | inl e =>
                 if bool_decide (exc_class e = OSError)
                    && bool_decide (exc_errno e = Some EEXIST)
                 then inr m else inl e
             | inr m' => inr m'
             end
        else inr m in
      match made with
      | inl e => inl e
      | inr m' =>
          match mkdir name m' with
          | inl e => inl (os_error e name)
          | inr m'' => inr m''
          end
      end
  end.

Definition makedirs (name : string) (m : gmap string node)
  : exception + gmap string node :=
  makedirs_fuel (S (String.length name)) name m.

(** [open(path, 'rb').read()] *)
Definition read_file (path : string) (m : gmap string node) : exception + string :=
  match lookup_node m path with
  | Some (File c) => inr c
  | Some Dir => inl (io_error EISDIR path)
  | None => inl (io_error ENOENT path)
  end.

(** [open(path, 'wb').write(c)]: the entry is created or truncated in the
    directory that [dirname(path)] names. *)
Definition write_file (path c : string) (m : gmap string node)
  : exception + gmap string node :=
  if bool_decide (path = EmptyString) then inl (io_error ENOENT path)
  else if bool_decide (posixpath.basename path = EmptyString) then inl (io_error EISDIR path)
  else if isdir m path then inl (io_error EISDIR path)
  else match check_dir m (posixpath.dirname path) with
       | Some e => inl (io_error e path)
       | None => inr (<[path := File c]> m)
       end.

(** [os.path.samefile] as [shutil._samefile] uses it: false when either
    path cannot be stat'ed. *)
Definition samefile (src dst : string) (m : gmap string node) : bool :=
  bool_decide (src = dst) && exists_ m src.

(** [shutil.copyfile(src, dst)]:
<<
      if _samefile(src, dst):
          raise Error("`%s` and `%s` are the same file" % (src, dst))
      with open(src, 'rb') as fsrc:
          with open(dst, 'wb') as fdst:
              copyfileobj(fsrc, fdst)
>> *)
Definition copyfile (src dst : string) (m : gmap string node)
  : exception + gmap string node :=
  if samefile src dst m then inl (Exc shutil_Error None src)
  else match read_file src m with
       | inl e => inl e
       | inr c => write_file dst c m
       end.

(** The path [shutil.copy(src, dst)] writes:
<<
      if os.path.isdir(dst):
          dst = os.path.join(dst, os.path.basename(src))
>> *)
Definition copy_target (src dst : string) (m : gmap string node) : string :=
  if isdir m dst then posixpath.join dst [posixpath.basename src] else dst.

(** [shutil.copy(src, dst)]; permission bits are not modelled. *)
Definition copy (src dst : string) (m : gmap string node)
  : exception + gmap string node :=
  copyfile src (copy_target src dst m) m.

End fs.

(* ===================================================================== *)
(** * Methods as computations *)
(* ===================================================================== *)

(** How a call ends: it returns a value or raises. *)
Inductive outcome (A : Type) :=
| Return (a : A)
| Raise (e : exception).
Arguments Return {A} a.
Arguments Raise {A} e.

(** What a method can read and write: the attributes of its receiver and
    the world. *)
Record state (O : Type) := State { self : O; env : world }.
Arguments State {O} self env.
Arguments self {O} s.
Arguments env {O} s.

Definition M (O A : Type) : Type := state O → outcome A * state O.

#[global] Instance M_ret {O} : MRet (M O) := λ A a s, (Return a, s).
#[global] Instance M_bind {O} : MBind (M O) := λ A B f m s,
  match m s with
  | (Return a, s') => f a s'
  | (Raise e, s') => (Raise e, s')
  end.

Definition raise {O A} (e : exception) : M O A := λ s, (Raise e, s).
Definition get_self {O} : M O O := λ s, (Return (self s), s).
Definition put_self {O} (o : O) : M O unit := λ s, (Return tt, State o (env s)).
Definition get_env {O} : M O world := λ s, (Return (env s), s).

(** A library call: logged, then run on the file system. *)
Definition query {O A} (c : oscall) (f : gmap string node → A) : M O A :=
  λ s, let w := log_call c (env s) in (Return (f (files w)), State (self s) w).
Definition command {O} (c : oscall)
    (f : gmap string node → exception + gmap string node) : M O unit :=
  λ s, let w := log_call c (env s) in
       match f (files w) with
       | inl e => (Raise e, State (self s) w)
       | inr m => (Return tt, State (self s) (set_files m w))
       end.

(** A method call on the object held in an attribute: the callee runs on
    that object, and what it leaves there is what the attribute holds
    afterwards. *)
Definition on_attr {O P A} (get : O → P) (set : P → O → O) (m : M P A) : M O A :=
  λ s, let '(r, s') := m (State (get (self s)) (env s)) in
       (r, State (set (self s') (self s)) (env s')).

Module os_path.
Definition isdir {O} (p : string) : M O bool :=
  query (call_isdir p) (λ m, fs.isdir m p).
Definition isfile {O} (p : string) : M O bool :=
  query (call_isfile p) (λ m, fs.isfile m p).
End os_path.

Module os.
Definition makedirs {O} (p : string) : M O unit :=
  command (call_makedirs p) (fs.makedirs p).
End os.

Module shutil.
Definition copy {O} (src dst : string) : M O unit :=
  command (call_copy src dst) (fs.copy src dst).
End shutil.

(* ===================================================================== *)
(** * [class Directory] *)
(* ===================================================================== *)

Record Directory := { _dir_path : string }.

Module Directory_.

(** [Directory.__init__(self, dir_path)] *)
Definition __init__ (dir_path : string) : Directory :=
  {| _dir_path := dir_path |}.

(** [Directory.get_path(self, file_name=None)] *)
Definition get_path (file_name : option string) : M Directory string :=
  d ← get_self;
  let result := _dir_path d in
  match file_name with
  | Some f => mret (posixpath.join result [f])
  | None => mret result
  end.

(** [Directory.isdir(self)] *)
Definition isdir : M Directory bool :=
  d ← get_self;
  os_path.isdir (_dir_path d).

(** [Directory.isfile(self, file_name)] *)
Definition isfile (file_name : string) : M Directory bool :=
  test_path ← get_path (Some file_name);
  os_path.isfile test_path.

(** [Directory.makedir(self)] *)
Definition makedir : M Directory unit :=
  b ← isdir;
  if negb b then
    p ← get_path None;
    os.makedirs p
  else mret tt.

End Directory_.

(* ===================================================================== *)
(** * [class DirectoryMap] *)
(* ===================================================================== *)

Record DirectoryMap := {
  target_dir : Directory;
  source_dir : option Directory;
  last_copy_path : option string;
}.

Definition set_target_dir (d : Directory) (dm : DirectoryMap) : DirectoryMap :=
  {| target_dir := d; source_dir := source_dir dm;
     last_copy_path := last_copy_path dm |}.
Definition set_source_dir (d : option Directory) (dm : DirectoryMap) : DirectoryMap :=
  {| target_dir := target_dir dm; source_dir := d;
     last_copy_path := last_copy_path dm |}.
Definition set_last_copy_path (p : option string) (dm : DirectoryMap) : DirectoryMap :=
  {| target_dir := target_dir dm; source_dir := source_dir dm;
     last_copy_path := p |}.

Module DirectoryMap_.

(** [DirectoryMap.__init__(self, target_dir, source_dir)] *)
Definition __init__ (target_dir : Directory) (source_dir : option Directory)
  : DirectoryMap :=
  {| target_dir := target_dir; source_dir := source_dir;
     last_copy_path := None |}.

(** [self.target_dir.<method>(...)] *)
Definition on_target_dir {A} (m : M Directory A) : M DirectoryMap A :=
  on_attr target_dir set_target_dir m.

(** [self.source_dir.<method>(...)]; [None] has no methods. *)
Definition on_source_dir {A} (m : M Directory A) : M DirectoryMap A :=
  dm ← get_self;
  match source_dir dm with
  | Some d => on_attr (λ _, d) (λ d', set_source_dir (Some d')) m
  | None => raise (Exc AttributeError None "get_path")
  end.

(** [DirectoryMap.target_exists(self, file_name=None)] *)
Definition target_exists (file_name : option string) : M DirectoryMap bool :=
  match file_name with
  | Some f => on_target_dir (Directory_.isfile f)
  | None => on_target_dir Directory_.isdir
  end.

(** [DirectoryMap.copy_file(self, src_name, dst_name=None, overwrite=False,
    new_ext='.new')] *)
Definition copy_file (src_name : string) (dst_name : option string)
    (overwrite : bool) (new_ext : string) : M DirectoryMap unit :=
  dm ← get_self;
  match source_dir dm with
  | None => raise (Exc ValueError None "No source directory is given.")
  | Some _ =>
      let file_name := default src_name dst_name in
      (* Build the destination path *)
      dst_file_path ← on_target_dir (Directory_.get_path (Some file_name));
      present ← target_exists (Some file_name);
      let dst_file_path :=
        if present && negb overwrite then dst_file_path +:+ new_ext
        else dst_file_path in
      (* Get the source path *)
      src_file_path ← on_source_dir (Directory_.get_path (Some src_name));
      (* Prepare the destination directory *)
      on_target_dir Directory_.makedir;;
      (* Copy the file *)
      shutil.copy src_file_path dst_file_path;;
      (* Store the location of the copy directory *)
      dm' ← get_self;
      put_self (set_last_copy_path (Some dst_file_path) dm')
  end.

(** [DirectoryMap.safe_copy_file(self, src_name, dst_name=None)] *)
Definition safe_copy_file (src_name : string) (dst_name : option string)
  : M DirectoryMap unit :=
  let file_name := default src_name dst_name in
  present ← target_exists (Some file_name);
  if negb present then copy_file src_name dst_name false ".new"
  else mret tt.

End DirectoryMap_.

(* ===================================================================== *)
(** * Directory construction strategies *)
(* ===================================================================== *)

(** [sys.modules[module_name]] *)
Definition sys_modules_getitem {O} (module_name : string) : M O pymodule :=
  w ← get_env;
  match sys_modules w !! module_name with
  | Some mod_handle => mret mod_handle
  | None => raise (Exc KeyError None module_name)
  end.

Section platform.

(** [os.path.realpath] and [os.path.abspath] read the file system (links,
    working directory) and compute a path; what they compute is left open. *)
Variable realpath : gmap string node → string → string.
Variable abspath : gmap string node → string → string.

(** Modelled from the spec: [polite/appdirs.py] ([user_data_dir],
    [site_data_dir]) is not among the sources.  The specification treats
    both as an opaque platform service that maps an application name and a
    vendor name to an absolute directory path. *)
Variable user_data_dir : string → string → bool → string.
Variable site_data_dir : string → string → string.

(** [module_path(module)] *)
Definition module_path {O} (module : pymodule) : M O string :=
  match __file__ module with
  | Some f => query (call_realpath f) (λ m, realpath m f)
  | None => raise (Exc AttributeError None "__file__")
  end.

(** [module_dir(module)] *)
Definition module_dir {O} (module : pymodule) : M O string :=
  mod_path ← module_path module;
  let dirname := posixpath.dirname mod_path in
  query (call_abspath dirname) (λ m, abspath m dirname).

(** [ObjDirectory.__init__(self, module_name, *paths)]; the computation
    returns the object it has initialised. *)
Definition ObjDirectory (module_name : string) (paths : list string)
  : M unit Directory :=
  mod_handle ← sys_modules_getitem module_name;
  dir_path ← module_dir mod_handle;
  let dir_path := posixpath.join dir_path paths in
  mret (Directory_.__init__ dir_path).

(** [UserDataDirectory.__init__(self, package, company, *paths)] *)
Definition UserDataDirectory (package company : string) (paths : list string)
  : M unit Directory :=
  let dir_path := user_data_dir package company true in
  let dir_path := posixpath.join dir_path paths in
  mret (Directory_.__init__ dir_path).

(** [SiteDataDirectory.__init__(self, package, company, *paths)] *)
Definition SiteDataDirectory (package company : string) (paths : list string)
  : M unit Directory :=
  let dir_path := site_data_dir package company in
  let dir_path := posixpath.join dir_path paths in
  mret (Directory_.__init__ dir_path).

End platform.

(* ===================================================================== *)
(** * Sequences of calls *)
(* ===================================================================== *)

(** The operations of a [Directory]. *)
Inductive Directory_op :=
| op_get_path (file_name : option string)
| op_isdir
| op_isfile (file_name : string)
| op_makedir.

Definition run_op (op : Directory_op) : M Directory unit :=
  match op with
  | op_get_path f => Directory_.get_path f;; mret tt
  | op_isdir => Directory_.isdir;; mret tt
  | op_isfile f => Directory_.isfile f;; mret tt
  | op_makedir => Directory_.makedir
  end.

(** The state a sequence of operations leaves, whether the caller lets an
    exception end the sequence or catches it and goes on. *)
Fixpoint run_ops (stop_on_raise : bool) (ops : list Directory_op)
    (s : state Directory) : state Directory :=
  match ops with
  | [] => s
  | op :: rest =>
      match run_op op s with
      | (Return _, s') => run_ops stop_on_raise rest s'
      | (Raise _, s') => if stop_on_raise then s' else run_ops stop_on_raise rest s'
      end
  end.

(** [for _ in range(n): m] *)
Fixpoint repeat_call {O} (n : nat) (m : M O unit) : M O unit :=
  match n with
  | O => mret tt
  | S k => m;; repeat_call k m
  end.

Definition is_copy (c : oscall) : bool :=
  match c with call_copy _ _ => true | _ => false end.

(** How many times [shutil.copy] has been called. *)
Definition copies_made (w : world) : nat :=
  length (List.filter is_copy (oslog w)).

(* ===================================================================== *)
(** * [ReadYAML] *)
(* ===================================================================== *)

(** A structured value: what a YAML document denotes. *)
Inductive yaml :=
| YStr (s : string)
| YSeq (items : list yaml)
| YMap (entries : list (string * yaml)).

Section yaml_files.

(** The YAML library, an external collaborator: a serializer and a parser
    that refuses malformed text. *)
Variable yaml_dump : yaml → string.
Variable yaml_load : string → option yaml.

(** Modelled from the spec: [polite/configuration.py] ([ReadYAML]) is not
    among the sources.  The specification gives a provisioner a target
    [config_directory] and a [file_name]. *)
Record ReadYAML := {
  config_directory : Directory;
  file_name : string;
}.

Definition on_config_directory {A} (m : M Directory A) : M ReadYAML A :=
  on_attr config_directory
    (λ d rd, {| config_directory := d; file_name := file_name rd |}) m.

(** Modelled from the spec: [ReadYAML.read()] "parses a named YAML file in
    the config directory into its native structured representation", and
    "fails with ParseError on malformed YAML". *)
Definition ReadYAML_read : M ReadYAML yaml :=
  rd ← get_self;
  yaml_path ← on_config_directory (Directory_.get_path (Some (file_name rd)));
  text ← (λ s, let w := log_call (call_read yaml_path) (env s) in
               match fs.read_file yaml_path (files w) with
               | inl e => (Raise e, State (self s) w)
               | inr c => (Return c, State (self s) w)
               end);
  match yaml_load text with
  | Some v => mret v
  | None => raise (Exc YAMLError None yaml_path)
  end.

(** Modelled from the spec: [ReadYAML.write(value)] "serializes a structured
    value to the named YAML file in the config directory, creating the
    directory if needed; overwrites unconditionally". *)
Definition ReadYAML_write (value : yaml) : M ReadYAML unit :=
  rd ← get_self;
  on_config_directory Directory_.makedir;;
  yaml_path ← on_config_directory (Directory_.get_path (Some (file_name rd)));
  command (call_write yaml_path) (fs.write_file yaml_path (yaml_dump value)).

End yaml_files.

(* ===================================================================== *)
(** * Vocabulary of the statements *)
(* ===================================================================== *)

(** The exception [copy_file] raises when the map has no source
    directory:
<<
      errStr = "No source directory is given."
      raise ValueError(errStr)
>> *)
Definition no_source_error : exception :=
  Exc ValueError None "No source directory is given.".

(** [creatable m name]: nothing is at [name], and walking up from [name]
    through entries that do not exist yet ends in a directory (or in the
    working directory). *)
Inductive creatable (m : gmap string node) : string → Prop :=
| creatable_here name :
    name ≠ EmptyString →
    fs.lookup_node m name = None →
    fs.check_dir m (fs.parent name) = None →
    creatable m name
| creatable_below name :
    name ≠ EmptyString →
    fs.lookup_node m name = None →
    fs.parent name ≠ EmptyString →
    fs.last_component name ≠ EmptyString →
    fs.lookup_node m (fs.parent name) = None →
    creatable m (fs.parent name) →
    creatable m name.

(** [open(path, 'wb')] succeeds: [path] names an entry of an existing
    directory, and no directory is at [path]. *)
Definition writable (m : gmap string node) (path : string) : Prop :=
  posixpath.basename path ≠ EmptyString
  ∧ fs.isdir m path = false
  ∧ fs.check_dir m (posixpath.dirname path) = None.

(** An entry is in order: a regular file has a name and lies in a directory
    that exists. *)
Definition entry_ok (m : gmap string node) (p : string) (n : node) : bool :=
  match n with
  | File _ =>
      negb (bool_decide (posixpath.basename p = EmptyString))
      && bool_decide (fs.check_dir m (posixpath.dirname p) = None)
  | Dir => true
  end.

(** A well-formed file system: every entry is in order.  The calls keep
    file systems well formed (see [copy_file_well_formed]). *)
Definition well_formed (m : gmap string node) : Prop :=
  map_Forall (λ p n, entry_ok m p n = true) m.

(** The path [copy_file] hands to [shutil.copy]: the path of [file_name] in
    the target directory, redirected by [new_ext] when a regular file is
    there and [overwrite] is false. *)
Definition destination (dm : DirectoryMap) (file_name : string)
    (overwrite : bool) (new_ext : string) (m : gmap string node) : string :=
  let dst_file_path := posixpath.join (_dir_path (target_dir dm)) [file_name] in
  if fs.isfile m dst_file_path && negb overwrite
  then dst_file_path +:+ new_ext else dst_file_path.

(** Example file systems.  [conf] is a configuration directory that holds
    [a] and, from an earlier conflict, [a.new]; [defaults] holds the
    packaged [a]. *)
Definition conf_files : gmap string node :=
  <["conf" := Dir]> (<["conf/a" := File "user"]> (<["conf/a.new" := File "v1"]>
  (<["defaults" := Dir]> (<["defaults/a" := File "v2"]> ∅)))).

Definition conf_world : world := World conf_files ∅ [].

Definition conf_map : DirectoryMap :=
  DirectoryMap_.__init__ (Directory_.__init__ "conf")
    (Some (Directory_.__init__ "defaults")).

(** A map from the configuration directory to itself. *)
Definition conf_self_map : DirectoryMap :=
  DirectoryMap_.__init__ (Directory_.__init__ "conf")
    (Some (Directory_.__init__ "conf")).

(** A map with no source directory. *)
Definition conf_only_map : DirectoryMap :=
  DirectoryMap_.__init__ (Directory_.__init__ "conf") None.

(** A configuration directory in which [logging.yaml] is a directory. *)
Definition nested_files : gmap string node :=
  <["conf" := Dir]> (<["conf/logging.yaml" := Dir]>
  (<["defaults" := Dir]> (<["defaults/logging.yaml" := File "version: 1"]> ∅))).

Definition nested_world : world := World nested_files ∅ [].

(** Modelled from the spec: the serializer and the parser of the YAML
    library, which is not among the sources ("a standard YAML
    parser/serializer", "standard YAML 1.1-compatible text").  The
    serializer writes flow style: a scalar between double quotes, a sequence
    between brackets, a mapping between braces, and a line feed behind the
    document.  Inside the quotes a double quote and a backslash follow a
    backslash, and a character outside the printable ASCII range is written
    as a backslash, an x and two hexadecimal digits.  The parser reads this
    fragment of YAML and refuses any other text.

    [dump_onto v rest] is the text of [v] followed by [rest]. *)
Module flow.

Definition dquote : ascii := "034"%char.
Definition backslash : ascii := "092"%char.

(** A character that a double-quoted scalar holds as it is. *)
Definition plain (c : ascii) : bool :=
  (32 <=? N_of_ascii c)%N && (N_of_ascii c <=? 126)%N
  && negb (Ascii.eqb c dquote) && negb (Ascii.eqb c backslash).

Definition hex_digit (n : N) : ascii :=
  ascii_of_N (if (n <? 10)%N then 48 + n else 87 + n).

Definition hex_value (c : ascii) : option N :=
  let n := N_of_ascii c in
  if (48 <=? n)%N && (n <=? 57)%N then Some (n - 48)%N
  else if (97 <=? n)%N && (n <=? 102)%N then Some (n - 87)%N
  else None.

Definition escape_char (c : ascii) (rest : string) : string :=
  if plain c then String c rest
  else if Ascii.eqb c dquote || Ascii.eqb c backslash
  then String backslash (String c rest)
  else String backslash (String "x"
         (String (hex_digit (N_of_ascii c / 16))
            (String (hex_digit (N_of_ascii c mod 16)) rest))).

Fixpoint escape_onto (s rest : string) : string :=
  match s with
  | EmptyString => rest
  | String c s' => escape_char c (escape_onto s' rest)
  end.

Definition quoted_onto (s rest : string) : string :=
  String dquote (escape_onto s (String dquote rest)).
Arguments quoted_onto : simpl never.

Fixpoint dump_onto (v : yaml) (rest : string) : string :=
  match v with
  | YStr s => quoted_onto s rest
  | YSeq items =>
      String "["
        match items with
        | [] => String "]" rest
        | x :: xs =>
            dump_onto x
              (foldr (λ y text, String "," (String " " (dump_onto y text)))
                 (String "]" rest) xs)
        end
  | YMap entries =>
      String "{"
        match entries with
        | [] => String "}" rest
        | (k, x) :: xs =>
            quoted_onto k (String ":" (String " " (dump_onto x
              (foldr (λ e text,
                        String "," (String " "
                          (quoted_onto e.1
                             (String ":" (String " " (dump_onto e.2 text))))))
                 (String "}" rest) xs))))
        end
  end.

Definition newline : ascii := "010"%char.

Definition dump (v : yaml) : string := dump_onto v (String newline EmptyString).

(** The text of a double-quoted scalar, from behind its opening quote to
    its closing quote, and what follows. *)
Fixpoint unescape (s : string) : option (string * string) :=
  match s with
  | EmptyString => None
  | String c r =>
      if Ascii.eqb c dquote then Some (EmptyString, r)
      else if Ascii.eqb c backslash then
        match r with
        | String e r' =>
            if Ascii.eqb e dquote || Ascii.eqb e backslash then
              match unescape r' with
              | Some (t, rest) => Some (String e t, rest)
              | None => None
              end
            else if Ascii.eqb e "x" then
              match r' with
              | String h (String l r'') =>
                  match hex_value h, hex_value l, unescape r'' with
                  | Some a, Some b, Some (t, rest) =>
                      Some (String (ascii_of_N (16 * a + b)) t, rest)
                  | _, _, _ => None
                  end
              | _ => None
              end
            else None
        | EmptyString => None
        end
      else if plain c then
        match unescape r with
        | Some (t, rest) => Some (String c t, rest)
        | None => None
        end
      else None
  end.

(** [d[k] = v] on a mapping kept as the list of its items. *)
Fixpoint dict_set (k : string) (v : yaml) (d : list (string * yaml))
  : list (string * yaml) :=
  match d with
  | [] => [(k, v)]
  | (k', v') :: d' =>
      if bool_decide (k = k') then (k, v) :: d' else (k', v') :: dict_set k v d'
  end.

Definition dict_of (entries : list (string * yaml)) : list (string * yaml) :=
  foldl (λ d e, dict_set e.1 e.2 d) [] entries.

Definition expect (c : ascii) (s : string) : option string :=
  match s with
  | String c' r => if Ascii.eqb c' c then Some r else None
  | EmptyString => None
  end.

Fixpoint parse (n : nat) (s : string) : option (yaml * string) :=
  match n, s with
  | S n, String c r =>
      if Ascii.eqb c dquote then
        '(t, rest) ← unescape r; Some (YStr t, rest)
      else if Ascii.eqb c "[" then
        match expect "]" r with
        | Some rest => Some (YSeq [], rest)
        | None =>
            '(x, r1) ← parse n r;
            '(xs, rest) ← parse_items n r1;
            Some (YSeq (x :: xs), rest)
        end
      else if Ascii.eqb c "{" then
        match expect "}" r with
        | Some rest => Some (YMap [], rest)
        | None =>
            '(e, r1) ← parse_entry n r;
            '(es, rest) ← parse_entries n r1;
            Some (YMap (dict_of (e :: es)), rest)
        end
      else None
  | _, _ => None
  end
with parse_items (n : nat) (s : string) : option (list yaml * string) :=
  match n, s with
  | S n, String c r =>
      if Ascii.eqb c "]" then Some ([], r)
      else if Ascii.eqb c "," then
        r0 ← expect " " r;
        '(x, r1) ← parse n r0;
        '(xs, rest) ← parse_items n r1;
        Some (x :: xs, rest)
      else None
  | _, _ => None
  end
with parse_entry (n : nat) (s : string) : option ((string * yaml) * string) :=
  match n with
  | S n =>
      r ← expect dquote s;
      '(k, r0) ← unescape r;
      r1 ← expect ":" r0;
      r2 ← expect " " r1;
      '(x, rest) ← parse n r2;
      Some ((k, x), rest)
  | 0 => None
  end
with parse_entries (n : nat) (s : string)
  : option (list (string * yaml) * string) :=
  match n, s with
  | S n, String c r =>
      if Ascii.eqb c "}" then Some ([], r)
      else if Ascii.eqb c "," then
        r0 ← expect " " r;
        '(e, r1) ← parse_entry n r0;
        '(es, rest) ← parse_entries n r1;
        Some (e :: es, rest)
      else None
  | _, _ => None
  end.

Definition load (text : string) : option yaml :=
  match parse (String.length text) text with
  | Some (v, rest) =>
      if bool_decide (rest = String newline EmptyString ∨ rest = EmptyString)
      then Some v else None
  | None => None
  end.


(** What follows the first item of a sequence, and the first entry of a
    mapping. *)
Definition items_tail (xs : list yaml) (rest : string) : string :=
  foldr (λ y text, String "," (String " " (dump_onto y text))) (String "]" rest) xs.

Definition entries_tail (es : list (string * yaml)) (rest : string) : string :=
  foldr (λ e text, String "," (String " "
           (quoted_onto e.1 (String ":" (String " " (dump_onto e.2 text))))))
    (String "}" rest) es.

End flow.

(** Values as Python has them: the keys of a mapping are distinct, at
    every depth. *)
Fixpoint well_keyed (v : yaml) : bool :=
  match v with
  | YStr _ => true
  | YSeq items => forallb well_keyed items
  | YMap entries =>
      bool_decide (NoDup entries.*1) && forallb (λ e, well_keyed e.2) entries
  end.

(** The values the round trip is stated for. *)
Definition list_of_strings (v : yaml) : Prop :=
  ∃ l : list string, v = YSeq (YStr <$> l).

(** A mapping whose values are strings, sequences or mappings again, to
    any depth. *)
Definition nested_mapping (v : yaml) : Prop :=
  ∃ entries, v = YMap entries ∧ well_keyed v = true.

Definition empty_mapping : yaml := YMap [].

Definition stooges : yaml := YSeq [YStr "curly"; YStr "larry"; YStr "moe"].

(** A logging configuration: mappings in mappings, a list of strings and an
    empty mapping among the values. *)
Definition logging_config : yaml :=
  YMap [("version", YStr "1");
        ("loggers",
         YMap [("polite", YMap [("level", YStr "DEBUG");
                                ("handlers", YSeq [YStr "console"; YStr "file"])])]);
        ("filters", YMap [])].

(** A reader of [logging.yaml] in [conf], in a world where [conf] exists. *)
Definition logging_reader : ReadYAML :=
  {| config_directory := Directory_.__init__ "conf"; file_name := "logging.yaml" |}.
Definition conf_dir_world : world := World (<["conf" := Dir]> ∅) ∅ [].

(** A configuration directory that holds [a]; [defaults] holds the packaged
    [a]. *)
Definition first_conflict_files : gmap string node :=
  <["conf" := Dir]> (<["conf/a" := File "user"]>
  (<["defaults" := Dir]> (<["defaults/a" := File "v2"]> ∅))).
Definition first_conflict_world : world := World first_conflict_files ∅ [].

(* ===================================================================== *)
(** * [setup.py]: [class CleanPyc] *)
(* ===================================================================== *)

Module str.

(** [s.startswith(item)] *)
Fixpoint startswith (s item : string) : bool :=
  match item, s with
  | EmptyString, _ => true
  | String a item', String b s' => bool_decide (a = b) && startswith s' item'
  | String _ _, EmptyString => false
  end.

(** [s.find(item)]: the lowest index at which [item] occurs in [s], or
    [-1]. *)
Fixpoint find (s item : string) : Z :=
  if startswith s item then 0%Z
  else match s with
       | EmptyString => (-1)%Z
       | String _ s' =>
           let r := find s' item in
           if bool_decide (r = (-1)%Z) then (-1)%Z else (r + 1)%Z
       end.

(** [s.endswith(suffix)] *)
Fixpoint endswith (s suffix : string) : bool :=
  bool_decide (s = suffix)
  || match s with
     | EmptyString => false
     | String _ s' => endswith s' suffix
     end.

End str.

Module CleanPyc.

Definition exclude_list : list string := [".egg"; ".git"; ".idea"; "__pycache__"].

(** [CleanPyc.is_exclude(cls, path)]:
<<
      for item in CleanPyc.exclude_list:
          if path.find(item) != -1:
              return True
      return False
>> *)
Fixpoint is_exclude_loop (items : list string) (path : string) : bool :=
  match items with
  | [] => false
  | item :: rest =>
      if negb (bool_decide (str.find path item = (-1)%Z)) then true
      else is_exclude_loop rest path
  end.

Definition is_exclude (path : string) : bool := is_exclude_loop exclude_list path.

(** [CleanPyc.is_pyc(cls, path)] *)
Definition is_pyc (path : string) : bool := str.endswith path ".pyc".

(** The inner loop of [pickup_pyc], over the files of one directory:
<<
      for fname in files:
          if self.is_exclude(root):
              continue
          if not self.is_pyc(fname):
              continue
          yield os.path.join(root, fname)
>> *)
Fixpoint pickup_files (root : string) (files : list string) : list string :=
  match files with
  | [] => []
  | fname :: rest =>
      if is_exclude root then pickup_files root rest
      else if negb (is_pyc fname) then pickup_files root rest
      else posixpath.join root [fname] :: pickup_files root rest
  end.

(** [CleanPyc.pickup_pyc(self)]: what the generator yields, in order, for
    the triples [(root, dirs, files)] that [os.walk(os.getcwd())] yields. *)
Fixpoint pickup_pyc (walk : list (string * list string * list string))
  : list string :=
  match walk with
  | [] => []
  | (root, _, files) :: rest => pickup_files root files ++ pickup_pyc rest
  end.

(** [os.remove(path)] *)
Definition remove (path : string) (m : gmap string node)
  : exception + gmap string node :=
  match fs.lookup_node m path with
  | Some (File _) => inr (delete path m)
  | Some Dir => inl (os_error EISDIR path)
  | None => inl (os_error ENOENT path)
  end.

(** The state of the script: the file system and what has been printed. *)
Record script_state := Script {
  script_files : gmap string node;
  stdout : list string;
}.

Definition print (line : string) (s : script_state) : script_state :=
  Script (script_files s) (stdout s ++ [line]).

(** The loop of [run] over the yielded paths:
<<
      for pyc_path in self.pickup_pyc():
          print "remove pyc: {0}".format(pyc_path)
          os.remove(pyc_path)
>> *)
Fixpoint run_loop (paths : list string) (s : script_state)
  : outcome unit * script_state :=
  match paths with
  | [] => (Return tt, s)
  | pyc_path :: rest =>
      let s1 := print ("remove pyc: " +:+ pyc_path) s in
      match remove pyc_path (script_files s1) with
      | inl e => (Raise e, s1)
      | inr m => run_loop rest (Script m (stdout s1))
      end
  end.

(** [CleanPyc.run(self)] *)
Definition run (walk : list (string * list string * list string))
    (s : script_state) : outcome unit * script_state :=
  let s1 := print "start cleanup pyc files." s in
  match run_loop (pickup_pyc walk) s1 with
  | (Return _, s2) => (Return tt, print "the end." s2)
  | (Raise e, s2) => (Raise e, s2)
  end.

End CleanPyc.

(** [item] occurs in [s]: [s = before + item + after]. *)
Definition occurs (item s : string) : Prop :=
  ∃ before after, s = before +:+ item +:+ after.

(** More example data.  A world in which [polite.paths] is loaded from a
    file and the built-in [sys] is loaded from none. *)
Definition loaded_world : world :=
  World conf_files
    (<["polite.paths" := PyModule (Some "/site/polite/paths.py")]>
       (<["sys" := PyModule None]> ∅))
    [].

(** A project tree as [os.walk] lists it, and its files. *)
Definition project_walk : list (string * list string * list string) :=
  [ ("/proj", ["pkg"; ".git"], ["setup.py"; "setup.pyc"]);
    ("/proj/pkg", [], ["a.py"; "a.pyc"]);
    ("/proj/.git", [], ["x.pyc"]) ].

Definition project_state : CleanPyc.script_state :=
  CleanPyc.Script
    (<["/proj" := Dir]> (<["/proj/setup.py" := File "s"]> (<["/proj/setup.pyc" := File "c"]>
     (<["/proj/pkg" := Dir]> (<["/proj/pkg/a.py" := File "a"]> (<["/proj/pkg/a.pyc" := File "c"]>
     (<["/proj/.git" := Dir]> (<["/proj/.git/x.pyc" := File "c"]> ∅))))))))
    [].

(** A listing that names a compiled file which is not there, between two
    that are. *)
Definition stale_walk : list (string * list string * list string) :=
  [ ("/proj", ["pkg"], ["setup.pyc"; "gone.pyc"]);
    ("/proj/pkg", [], ["a.pyc"]) ].

(** The worlds and states some of the examples end in. *)
Definition copied_b_world : world :=
  World (<["conf/b" := File "v2"]> conf_files) ∅
    [call_isfile "conf/b"; call_isdir "conf"; call_copy "defaults/a" "conf/b"].

Definition provisioned_b_world : world :=
  World (<["conf/b" := File "v2"]> conf_files) ∅
    [call_isfile "conf/b"; call_isfile "conf/b"; call_isdir "conf";
     call_copy "defaults/a" "conf/b"].

Definition copied_outside_world : world :=
  World (<["/a.bak" := File "v2"]> conf_files) ∅
    [call_isfile "/a.bak"; call_isdir "conf"; call_copy "defaults/a" "/a.bak"].

Definition cleaned_state : CleanPyc.script_state :=
  CleanPyc.Script
    (delete "/proj/pkg/a.pyc" (delete "/proj/setup.pyc"
       (CleanPyc.script_files project_state)))
    ["start cleanup pyc files."; "remove pyc: /proj/setup.pyc";
     "remove pyc: /proj/pkg/a.pyc"; "the end."].

Definition stale_state : CleanPyc.script_state :=
  CleanPyc.Script (delete "/proj/setup.pyc" (CleanPyc.script_files project_state))
    ["start cleanup pyc files."; "remove pyc: /proj/setup.pyc";
     "remove pyc: /proj/gone.pyc"].

(* ===================================================================== *)
(* ===================================================================== *)
(** * Properties *)
(* ===================================================================== *)
(* ===================================================================== *)

Example join_plain : posixpath.join "conf" ["logging.yaml"] = "conf/logging.yaml".
Proof. reflexivity. Qed.
Example join_trailing : posixpath.join "conf/" ["a"; "b"] = "conf/a/b".
Proof. reflexivity. Qed.
Example join_absolute : posixpath.join "conf" ["/etc"; "x"] = "/etc/x".
Proof. reflexivity. Qed.
Example split_plain : posixpath.split "/tmp/conf/a.ini" = ("/tmp/conf", "a.ini").
Proof. reflexivity. Qed.
Example split_slashes : posixpath.split "/tmp//a" = ("/tmp", "a").
Proof. reflexivity. Qed.
Example split_root : posixpath.split "//a" = ("//", "a").
Proof. reflexivity. Qed.
Example split_trailing : posixpath.split "tmp/a/" = ("tmp/a", EmptyString).
Proof. reflexivity. Qed.
Example split_name : posixpath.split "a.ini" = (EmptyString, "a.ini").
Proof. reflexivity. Qed.
Example KeyError_is_LookupError : issubclass KeyError LookupError = true.
Proof. reflexivity. Qed.
Example ValueError_is_not_LookupError : issubclass ValueError LookupError = false.
Proof. reflexivity. Qed.

(* ===================================================================== *)
(** * Facts about [posixpath] *)
(* ===================================================================== *)

Lemma rstrip_sep_cons_nil c s :
  posixpath.rstrip_sep (String c s) = EmptyString →
  posixpath.is_sep c = true ∧ posixpath.rstrip_sep s = EmptyString.
Proof.
  simpl. destruct (posixpath.rstrip_sep s); [|done].
  by destruct (posixpath.is_sep c).
Qed.

Lemma rstrip_sep_length s :
  String.length (posixpath.rstrip_sep s) ≤ String.length s.
Proof.
  induction s as [|c s IH]; simpl; [done|].
  destruct (posixpath.rstrip_sep s) eqn:E.
  - destruct (posixpath.is_sep c); simpl; lia.
  - simpl in *. lia.
Qed.

Lemma string_app_cons c s t : String c s +:+ t = String c (s +:+ t).
Proof. reflexivity. Qed.

Lemma string_app_nil_l t : EmptyString +:+ t = t.
Proof. reflexivity. Qed.

Lemma string_app_nil_r s : s +:+ EmptyString = s.
Proof. induction s as [|c s IH]; [done|]. by rewrite string_app_cons, IH. Qed.

Lemma string_app_assoc s t u : (s +:+ t) +:+ u = s +:+ t +:+ u.
Proof. induction s as [|c s IH]; [done|]. by rewrite !string_app_cons, IH. Qed.

Lemma string_app_length s t :
  String.length (s +:+ t) = String.length s + String.length t.
Proof. induction s as [|c s IH]; [done|]. rewrite string_app_cons. simpl. lia. Qed.

Lemma rsplit_sep_app p :
  p = (posixpath.rsplit_sep p).1 +:+ (posixpath.rsplit_sep p).2.
Proof.
  induction p as [|c p IH]; simpl; [done|].
  destruct (posixpath.rsplit_sep p) as [[|c' h] t]; simpl in *.
  - rewrite string_app_nil_l in IH. subst t.
    destruct (posixpath.is_sep c); simpl; by rewrite ?string_app_cons, ?string_app_nil_l.
  - by rewrite string_app_cons, <- IH.
Qed.

Lemma rsplit_sep_length p :
  String.length p =
    String.length (posixpath.rsplit_sep p).1 + String.length (posixpath.rsplit_sep p).2.
Proof.
  induction p as [|c p IH]; simpl; [done|].
  destruct (posixpath.rsplit_sep p) as [[|c' h] t]; simpl in *.
  - destruct (posixpath.is_sep c); simpl; lia.
  - lia.
Qed.

Lemma split_snd p : (posixpath.split p).2 = (posixpath.rsplit_sep p).2.
Proof.
  unfold posixpath.split. destruct (posixpath.rsplit_sep p) as [h t].
  by destruct (posixpath.rstrip_sep h).
Qed.

Lemma split_fst_length p :
  String.length (posixpath.split p).1 ≤ String.length (posixpath.rsplit_sep p).1.
Proof.
  unfold posixpath.split. destruct (posixpath.rsplit_sep p) as [h t].
  pose proof (rstrip_sep_length h).
  destruct (posixpath.rstrip_sep h); simpl in *; lia.
Qed.

(** [dirname(p)] is shorter than [p] unless [p] ends with a separator. *)
Lemma split_shorter p :
  (posixpath.split p).2 ≠ EmptyString →
  String.length (posixpath.split p).1 < String.length p.
Proof.
  intros Ht. rewrite split_snd in Ht.
  pose proof (split_fst_length p). pose proof (rsplit_sep_length p).
  destruct ((posixpath.rsplit_sep p).2); [done|]. simpl in *. lia.
Qed.

Lemma split_fst_le p :
  String.length (posixpath.split p).1 ≤ String.length p.
Proof.
  pose proof (split_fst_length p). pose proof (rsplit_sep_length p). lia.
Qed.

(** A spelling of the root has no last component. *)
Lemma rstrip_nil_rsplit p :
  posixpath.rstrip_sep p = EmptyString → (posixpath.rsplit_sep p).2 = EmptyString.
Proof.
  induction p as [|c p IH]; [done|].
  intros [Hc Hp]%rstrip_sep_cons_nil. specialize (IH Hp). simpl.
  destruct (posixpath.rsplit_sep p) as [[|c' h] t]; simpl in *; [|done].
  by rewrite Hc.
Qed.

Lemma is_root_basename p :
  posixpath.is_root p = true → posixpath.basename p = EmptyString.
Proof.
  unfold posixpath.is_root, posixpath.basename.
  intros [_ H%bool_decide_eq_true]%andb_prop. by apply rstrip_nil_rsplit.
Qed.

Lemma is_root_nonempty p : posixpath.is_root p = true → p ≠ EmptyString.
Proof.
  unfold posixpath.is_root. intros [H _]%andb_prop ->. done.
Qed.

(* ===================================================================== *)
(** * Facts about the file system *)
(* ===================================================================== *)

(** The directory an entry is created in has a shorter spelling than the
    entry, when both it and the entry's last component are named. *)
Lemma parent_shorter name :
  fs.last_component name ≠ EmptyString →
  String.length (fs.parent name) < String.length name.
Proof.
  unfold fs.last_component, fs.parent.
  destruct (posixpath.split name) as [head tail] eqn:E.
  case_bool_decide as Ht.
  - subst tail. intros Hl.
    pose proof (split_shorter head Hl). pose proof (split_fst_le name).
    rewrite E in *. simpl in *. lia.
  - intros _. pose proof (split_shorter name). rewrite E in *. simpl in *. auto.
Qed.

Lemma lookup_node_insert_eq m p n :
  posixpath.is_root p = false → fs.lookup_node (<[p := n]> m) p = Some n.
Proof. intros Hr. unfold fs.lookup_node. rewrite Hr. apply lookup_insert_eq. Qed.

Lemma lookup_node_insert_ne m p q n :
  p ≠ q → fs.lookup_node (<[p := n]> m) q = fs.lookup_node m q.
Proof.
  intros Hne. unfold fs.lookup_node. destruct (posixpath.is_root q); [done|].
  by apply lookup_insert_ne.
Qed.

Lemma lookup_node_root m p : posixpath.is_root p = true → fs.lookup_node m p = Some Dir.
Proof. intros Hr. unfold fs.lookup_node. by rewrite Hr. Qed.

Lemma exists_false m p : fs.exists_ m p = false ↔ fs.lookup_node m p = None.
Proof.
  unfold fs.exists_. rewrite bool_decide_eq_false, <- eq_None_not_Some. done.
Qed.

Lemma isdir_true m p : fs.isdir m p = true ↔ fs.lookup_node m p = Some Dir.
Proof. unfold fs.isdir. by rewrite bool_decide_eq_true. Qed.

Lemma isfile_true m p : fs.isfile m p = true ↔ ∃ c, fs.lookup_node m p = Some (File c).
Proof.
  unfold fs.isfile. destruct (fs.lookup_node m p) as [[c|]|]; split; try done; eauto.
  - by intros [? ?].
  - by intros [? ?].
Qed.

(** What [os.mkdir] does when it returns. *)
Lemma mkdir_inr name m m' :
  fs.mkdir name m = inr m' →
  m' = <[name := Dir]> m
  ∧ name ≠ EmptyString
  ∧ fs.lookup_node m name = None
  ∧ fs.check_dir m (fs.parent name) = None.
Proof.
  unfold fs.mkdir. case_bool_decide as Hn; [done|].
  destruct (fs.exists_ m name) eqn:He; [done|].
  destruct (fs.check_dir m (fs.parent name)) eqn:Hc; [done|].
  intros [= <-]. by apply exists_false in He.
Qed.

Lemma mkdir_returns name m :
  name ≠ EmptyString →
  fs.lookup_node m name = None →
  fs.check_dir m (fs.parent name) = None →
  fs.mkdir name m = inr (<[name := Dir]> m).
Proof.
  intros Hn He Hc. unfold fs.mkdir. rewrite bool_decide_eq_false_2 by done.
  apply exists_false in He. by rewrite He, Hc.
Qed.

(** One entry more keeps the entries there were. *)
Lemma lookup_node_insert_fresh m name n q x :
  fs.lookup_node m name = None →
  fs.lookup_node m q = Some x →
  fs.lookup_node (<[name := n]> m) q = Some x.
Proof.
  intros Hfresh Hq. destruct (decide (name = q)) as [->|Hne]; [congruence|].
  by rewrite lookup_node_insert_ne.
Qed.

Lemma check_dir_mono m m' dir :
  (∀ q x, fs.lookup_node m q = Some x → fs.lookup_node m' q = Some x) →
  fs.check_dir m dir = None → fs.check_dir m' dir = None.
Proof.
  intros Hmono. unfold fs.check_dir. case_bool_decide; [done|].
  destruct (fs.lookup_node m dir) as [[c|]|] eqn:E; try done.
  by rewrite (Hmono _ _ E).
Qed.

Lemma check_dir_of_dir m dir :
  fs.lookup_node m dir = Some Dir → fs.check_dir m dir = None.
Proof. intros H. unfold fs.check_dir. case_bool_decide; [done|]. by rewrite H. Qed.

(** The three ways [os.makedirs] prepares the parent directory. *)
Lemma makedirs_fuel_unfold n name m :
  fs.makedirs_fuel (S n) name m =
    match
      (if negb (bool_decide (fs.parent name = EmptyString))
          && negb (bool_decide (fs.last_component name = EmptyString))
          && negb (fs.exists_ m (fs.parent name))
       then match fs.makedirs_fuel n (fs.parent name) m with
            | inl e =>
                if bool_decide (exc_class e = OSError)
                   && bool_decide (exc_errno e = Some EEXIST)
                then inr m else inl e
            | inr m' => inr m'
            end
       else inr m)
    with
    | inl e => inl e
    | inr m' =>
        match fs.mkdir name m' with
        | inl e => inl (os_error e name)
        | inr m'' => inr m''
        end
    end.
Proof. reflexivity. Qed.

(** What [os.makedirs] leaves when it returns: the directory exists, the
    directory it lies in exists, every entry there was is kept, and no
    entry with a longer spelling is touched. *)
Lemma makedirs_fuel_inr n name m m' :
  fs.makedirs_fuel n name m = inr m' →
  fs.lookup_node m' name = Some Dir
  ∧ fs.lookup_node m name = None
  ∧ fs.check_dir m' (fs.parent name) = None
  ∧ (∀ q x, fs.lookup_node m q = Some x → fs.lookup_node m' q = Some x)
  ∧ (∀ q, String.length name < String.length q →
          fs.lookup_node m' q = fs.lookup_node m q).
Proof.
  revert name m m'. induction n as [|n IH]; intros name m m'; [done|].
  rewrite makedirs_fuel_unfold.
  set (head := fs.parent name). set (tail := fs.last_component name).
  assert (∀ m1,
    (∀ q x, fs.lookup_node m q = Some x → fs.lookup_node m1 q = Some x) →
    (∀ q, String.length name ≤ String.length q →
          fs.lookup_node m1 q = fs.lookup_node m q) →
    match fs.mkdir name m1 with
    | inl e => inl (os_error e name)
    | inr m'' => inr m''
    end = inr m' →
    fs.lookup_node m' name = Some Dir
    ∧ fs.lookup_node m name = None
    ∧ fs.check_dir m' head = None
    ∧ (∀ q x, fs.lookup_node m q = Some x → fs.lookup_node m' q = Some x)
    ∧ (∀ q, String.length name < String.length q →
            fs.lookup_node m' q = fs.lookup_node m q)) as Hlast.
  { intros m1 Hmono Hframe Hmk.
    destruct (fs.mkdir name m1) as [e|m''] eqn:E; [done|].
    injection Hmk as ->.
    apply mkdir_inr in E as (-> & Hne & Hfresh & Hdir).
    assert (posixpath.is_root name = false) as Hroot.
    { destruct (posixpath.is_root name) eqn:Hr; [|done].
      by rewrite lookup_node_root in Hfresh. }
    split; [by apply lookup_node_insert_eq|].
    split; [by rewrite <- Hframe|].
    split.
    { eapply check_dir_mono; [|exact Hdir].
      intros q x Hq. by apply lookup_node_insert_fresh. }
    split.
    { intros q x Hq. apply lookup_node_insert_fresh; auto. }
    intros q Hlen. rewrite lookup_node_insert_ne; [apply Hframe; lia|].
    intros ->. lia. }
  destruct (negb (bool_decide (head = EmptyString))
            && negb (bool_decide (tail = EmptyString))
            && negb (fs.exists_ m head)) eqn:Hcond.
  - apply andb_prop in Hcond as [[_ Htail%negb_true_iff%bool_decide_eq_false]%andb_prop _].
    pose proof (parent_shorter name Htail) as Hshort. fold head in Hshort.
    destruct (fs.makedirs_fuel n head m) as [e|m1] eqn:E.
    + destruct (bool_decide (exc_class e = OSError)
                && bool_decide (exc_errno e = Some EEXIST)); [|done].
      apply Hlast; auto.
    + apply IH in E as (_ & _ & _ & Hmono & Hframe).
      apply Hlast; [done|]. intros q Hq. apply Hframe. lia.
  - apply Hlast; auto.
Qed.

Lemma makedirs_inr name m m' :
  fs.makedirs name m = inr m' →
  fs.isdir m' name = true
  ∧ fs.check_dir m' (fs.parent name) = None
  ∧ (∀ q x, fs.lookup_node m q = Some x → fs.lookup_node m' q = Some x).
Proof.
  intros (H1 & _ & H2 & H3 & _)%makedirs_fuel_inr.
  by rewrite isdir_true.
Qed.

(** [os.makedirs] returns on every creatable path. *)
Lemma makedirs_fuel_creatable m name :
  creatable m name →
  ∀ n, String.length name < n → ∃ m', fs.makedirs_fuel n name m = inr m'.
Proof.
  induction 1 as [name Hne Hfresh Hdir|name Hne Hfresh Hhead Htail Hnohead _ IH];
    intros [|n] Hn; try lia; rewrite makedirs_fuel_unfold.
  - assert (negb (bool_decide (fs.parent name = EmptyString))
            && negb (bool_decide (fs.last_component name = EmptyString))
            && negb (fs.exists_ m (fs.parent name)) = false) as ->.
    { unfold fs.check_dir in Hdir. case_bool_decide as Hp; [done|]. simpl.
      destruct (fs.lookup_node m (fs.parent name)) as [[c|]|] eqn:E; try done.
      assert (fs.exists_ m (fs.parent name) = true) as ->.
      { unfold fs.exists_. rewrite E. by apply bool_decide_eq_true. }
      by rewrite andb_false_r. }
    rewrite mkdir_returns by done. eauto.
  - pose proof (parent_shorter name Htail) as Hshort.
    apply exists_false in Hnohead as Hex.
    rewrite !bool_decide_eq_false_2, Hex by done. simpl.
    destruct (IH n) as [m1 Hm1]; [lia|]. rewrite Hm1.
    apply makedirs_fuel_inr in Hm1 as (Hd & _ & _ & _ & Hframe).
    rewrite mkdir_returns; eauto.
    + by rewrite Hframe.
    + by apply check_dir_of_dir.
Qed.

(** The bound on the recursion depth is never reached: any two bounds above
    the length of the path give the same result. *)
Lemma makedirs_fuel_enough n k name m :
  String.length name < n → String.length name < k →
  fs.makedirs_fuel n name m = fs.makedirs_fuel k name m.
Proof.
  revert k name. induction n as [|n IH]; intros [|k] name Hn Hk; try lia.
  rewrite !makedirs_fuel_unfold.
  destruct (negb (bool_decide (fs.parent name = EmptyString))
            && negb (bool_decide (fs.last_component name = EmptyString))
            && negb (fs.exists_ m (fs.parent name))) eqn:Hcond; [|done].
  apply andb_prop in Hcond as [[_ Htail%negb_true_iff%bool_decide_eq_false]%andb_prop _].
  pose proof (parent_shorter name Htail).
  rewrite (IH k) by lia. done.
Qed.

Lemma makedirs_fuel_error n name m e :
  String.length name < n →
  fs.makedirs_fuel n name m = inl e → exc_class e = OSError.
Proof.
  revert name e. induction n as [|n IH]; intros name e Hn; [lia|].
  rewrite makedirs_fuel_unfold.
  destruct (negb (bool_decide (fs.parent name = EmptyString))
            && negb (bool_decide (fs.last_component name = EmptyString))
            && negb (fs.exists_ m (fs.parent name))) eqn:Hcond.
  - apply andb_prop in Hcond as [[_ Htail%negb_true_iff%bool_decide_eq_false]%andb_prop _].
    pose proof (parent_shorter name Htail).
    destruct (fs.makedirs_fuel n (fs.parent name) m) as [e'|m1] eqn:E.
    + apply IH in E; [|lia].
      rewrite E, bool_decide_eq_true_2 by done. simpl.
      case_bool_decide.
      * destruct (fs.mkdir name m); [|done]. by intros [= <-].
      * by intros [= <-].
    + destruct (fs.mkdir name m1); [|done]. by intros [= <-].
  - destruct (fs.mkdir name m); [|done]. by intros [= <-].
Qed.

Lemma makedirs_creatable m name :
  creatable m name →
  ∃ m', fs.makedirs name m = inr m'
        ∧ fs.isdir m' name = true
        ∧ fs.check_dir m' (fs.parent name) = None
        ∧ (∀ q x, fs.lookup_node m q = Some x → fs.lookup_node m' q = Some x).
Proof.
  intros Hc. destruct (makedirs_fuel_creatable m name Hc (S (String.length name)))
    as [m' Hm']; [lia|].
  exists m'. split; [done|]. by apply makedirs_inr.
Qed.

(* ===================================================================== *)
(** * Running computations *)
(* ===================================================================== *)

Arguments posixpath.join : simpl never.
Arguments Directory_.get_path : simpl never.
Arguments Directory_.isdir : simpl never.
Arguments Directory_.isfile : simpl never.
Arguments Directory_.makedir : simpl never.
Arguments DirectoryMap_.on_target_dir : simpl never.
Arguments DirectoryMap_.on_source_dir : simpl never.
Arguments DirectoryMap_.target_exists : simpl never.
Arguments DirectoryMap_.copy_file : simpl never.
Arguments DirectoryMap_.safe_copy_file : simpl never.
Arguments log_call : simpl never.
Arguments set_files : simpl never.
Arguments destination : simpl never.

Lemma bind_run {O A B} (m : M O A) (f : A → M O B) s :
  (m ≫= f) s = match m s with
               | (Return a, s') => f a s'
               | (Raise e, s') => (Raise e, s')
               end.
Proof. reflexivity. Qed.

Lemma files_log_call c w : files (log_call c w) = files w.
Proof. reflexivity. Qed.

Lemma sys_modules_log_call c w : sys_modules (log_call c w) = sys_modules w.
Proof. reflexivity. Qed.

Lemma oslog_log_call c w : oslog (log_call c w) = oslog w ++ [c].
Proof. reflexivity. Qed.

Lemma oslog_set_files m w : oslog (set_files m w) = oslog w.
Proof. reflexivity. Qed.

Lemma files_set_files m w : files (set_files m w) = m.
Proof. reflexivity. Qed.

(** Normalises the call log of a world built by [log_call] and [set_files]. *)
Ltac logs :=
  cbn [env self];
  repeat first [rewrite oslog_set_files | rewrite oslog_log_call
               | rewrite files_set_files | rewrite files_log_call];
  rewrite <- ?app_assoc; simpl; try done.

Lemma set_files_id w : set_files (files w) w = w.
Proof. by destruct w. Qed.

Lemma get_path_run fo d w :
  Directory_.get_path fo (State d w) =
    (Return (match fo with
             | Some f => posixpath.join (_dir_path d) [f]
             | None => _dir_path d
             end), State d w).
Proof. by destruct fo. Qed.

Lemma isdir_run d w :
  Directory_.isdir (State d w) =
    (Return (fs.isdir (files w) (_dir_path d)),
     State d (log_call (call_isdir (_dir_path d)) w)).
Proof. reflexivity. Qed.

Lemma isfile_run f d w :
  Directory_.isfile f (State d w) =
    (Return (fs.isfile (files w) (posixpath.join (_dir_path d) [f])),
     State d (log_call (call_isfile (posixpath.join (_dir_path d) [f])) w)).
Proof. reflexivity. Qed.

Lemma makedir_run d w :
  Directory_.makedir (State d w) =
    let w1 := log_call (call_isdir (_dir_path d)) w in
    if fs.isdir (files w) (_dir_path d) then (Return tt, State d w1)
    else let w2 := log_call (call_makedirs (_dir_path d)) w1 in
         match fs.makedirs (_dir_path d) (files w) with
         | inl e => (Raise e, State d w2)
         | inr m => (Return tt, State d (set_files m w2))
         end.
Proof.
  unfold Directory_.makedir. rewrite bind_run, isdir_run.
  destruct (fs.isdir _ _); simpl; [done|].
  rewrite bind_run, get_path_run. unfold os.makedirs, command. simpl.
  by destruct (fs.makedirs _ _).
Qed.

Lemma set_target_dir_id dm : set_target_dir (target_dir dm) dm = dm.
Proof. by destruct dm. Qed.

Lemma on_target_dir_run {A} (m : M Directory A) dm w :
  DirectoryMap_.on_target_dir m (State dm w) =
    let '(r, s') := m (State (target_dir dm) w) in
    (r, State (set_target_dir (self s') dm) (env s')).
Proof. reflexivity. Qed.

Lemma target_exists_run f dm w :
  DirectoryMap_.target_exists (Some f) (State dm w) =
    let p := posixpath.join (_dir_path (target_dir dm)) [f] in
    (Return (fs.isfile (files w) p), State dm (log_call (call_isfile p) w)).
Proof.
  unfold DirectoryMap_.target_exists. rewrite on_target_dir_run, isfile_run.
  simpl. by rewrite set_target_dir_id.
Qed.

Lemma target_exists_dir_run dm w :
  DirectoryMap_.target_exists None (State dm w) =
    let p := _dir_path (target_dir dm) in
    (Return (fs.isdir (files w) p), State dm (log_call (call_isdir p) w)).
Proof.
  unfold DirectoryMap_.target_exists. rewrite on_target_dir_run, isdir_run.
  simpl. by rewrite set_target_dir_id.
Qed.

Lemma makedir_self d w : self (Directory_.makedir (State d w)).2 = d.
Proof.
  rewrite makedir_run. simpl. destruct (fs.isdir _ _); [done|].
  by destruct (fs.makedirs _ _).
Qed.

Lemma copy_file_run src dst ov ext dm S w :
  source_dir dm = Some S →
  DirectoryMap_.copy_file src dst ov ext (State dm w) =
    let p0 := posixpath.join (_dir_path (target_dir dm)) [default src dst] in
    let dstp := destination dm (default src dst) ov ext (files w) in
    let srcp := posixpath.join (_dir_path S) [src] in
    match Directory_.makedir (State (target_dir dm) (log_call (call_isfile p0) w)) with
    | (Raise e, s2) => (Raise e, State dm (env s2))
    | (Return _, s2) =>
        let w3 := log_call (call_copy srcp dstp) (env s2) in
        match fs.copy srcp dstp (files (env s2)) with
        | inl e => (Raise e, State dm w3)
        | inr m => (Return tt, State (set_last_copy_path (Some dstp) dm) (set_files m w3))
        end
    end.
Proof.
  intros HS. unfold DirectoryMap_.copy_file, destination.
  rewrite bind_run. simpl. rewrite HS.
  rewrite bind_run, on_target_dir_run, get_path_run. simpl.
  rewrite set_target_dir_id, bind_run, target_exists_run. simpl.
  rewrite bind_run. unfold DirectoryMap_.on_source_dir at 1.
  rewrite bind_run. simpl. rewrite HS. unfold on_attr at 1. rewrite get_path_run. simpl.
  assert (set_source_dir (Some S) dm = dm) as -> by (destruct dm; simpl in *; by subst).
  rewrite bind_run, on_target_dir_run.
  pose proof (makedir_self (target_dir dm)
    (log_call (call_isfile (posixpath.join (_dir_path (target_dir dm)) [default src dst])) w)) as Hself.
  destruct (Directory_.makedir _) as [[[]|e] [d2 w2]]; simpl in *; subst d2;
    rewrite set_target_dir_id; [|done].
  rewrite bind_run. unfold shutil.copy, command. simpl.
  destruct (fs.copy _ _ _); done.
Qed.

Lemma safe_copy_file_run src dst dm w :
  DirectoryMap_.safe_copy_file src dst (State dm w) =
    let p := posixpath.join (_dir_path (target_dir dm)) [default src dst] in
    let w1 := log_call (call_isfile p) w in
    if fs.isfile (files w) p then (Return tt, State dm w1)
    else DirectoryMap_.copy_file src dst false ".new" (State dm w1).
Proof.
  unfold DirectoryMap_.safe_copy_file. rewrite bind_run, target_exists_run. simpl.
  by destruct (fs.isfile _ _).
Qed.

Lemma copy_file_no_source src dst ov ext dm w :
  source_dir dm = None →
  DirectoryMap_.copy_file src dst ov ext (State dm w) = (Raise no_source_error, State dm w).
Proof.
  intros HS. unfold DirectoryMap_.copy_file. rewrite bind_run. simpl. by rewrite HS.
Qed.

(** C3.  A [DirectoryMap] whose source directory is [None]: [copy_file]
    raises the [ValueError] for the missing source (the specification's
    [InvalidState]) and leaves everything as it was: the map with its
    [last_copy_path], the file system, and the log of library calls, to
    which nothing is added.  [safe_copy_file], when the target file is
    absent, raises the same error; all it has done before is ask whether the
    target file exists, so the file system and [last_copy_path] are
    unchanged and no call that can create an entry has been made. *)
Theorem copy_file_without_source_raises src dst ov ext dm w :
  source_dir dm = None →
  let p := posixpath.join (_dir_path (target_dir dm)) [default src dst] in
  DirectoryMap_.copy_file src dst ov ext (State dm w)
    = (Raise no_source_error, State dm w)
  ∧ exc_class no_source_error = ValueError
  ∧ (fs.isfile (files w) p = false →
     DirectoryMap_.safe_copy_file src dst (State dm w)
       = (Raise no_source_error, State dm (log_call (call_isfile p) w))
     ∧ files (log_call (call_isfile p) w) = files w
     ∧ List.filter creates (oslog (log_call (call_isfile p) w))
         = List.filter creates (oslog w)).
Proof.
  intros HS p. split; [by apply copy_file_no_source|]. split; [done|].
  intros Habs. rewrite safe_copy_file_run. simpl. fold p. rewrite Habs.
  split; [by apply copy_file_no_source|]. split; [done|].
  rewrite ?oslog_log_call, List.filter_app. simpl. by rewrite app_nil_r.
Qed.

Lemma copy_file_observable src dst ov ext dm w :
  DirectoryMap_.copy_file src dst ov ext (State dm w) ≠ (Return tt, State dm w).
Proof.
  destruct (source_dir dm) as [S|] eqn:HS.
  - rewrite (copy_file_run src dst ov ext dm S w HS). simpl.
    set (p0 := posixpath.join _ _).
    rewrite makedir_run. simpl.
    match goal with
    | |- context [fs.copy ?a ?b _] => set (srcp := a); set (dstp := b)
    end.
    assert (∀ (dm' : DirectoryMap) w' l, oslog w' = oslog w ++ call_isfile p0 :: l →
              (Return tt, State dm' w') ≠ (Return tt, State dm w)) as Hne.
    { intros dm' w' l Hl Heq. injection Heq as _ ->.
      apply (f_equal length) in Hl. rewrite length_app in Hl. simpl in Hl. lia. }
    destruct (fs.isdir _ _).
    + destruct (fs.copy _ _ _); [done|].
      apply (Hne _ _ [call_isdir (_dir_path (target_dir dm)); call_copy srcp dstp]).
      logs.
    + destruct (fs.makedirs _ _); [done|]. simpl.
      destruct (fs.copy _ _ _); [done|].
      apply (Hne _ _ [call_isdir (_dir_path (target_dir dm));
                      call_makedirs (_dir_path (target_dir dm)); call_copy srcp dstp]).
      logs.
  - by rewrite copy_file_no_source.
Qed.

Lemma copies_made_log_query c w :
  is_copy c = false → copies_made (log_call c w) = copies_made w.
Proof.
  intros Hc. unfold copies_made. rewrite oslog_log_call, List.filter_app. simpl.
  rewrite Hc. by rewrite app_nil_r.
Qed.

Lemma repeat_safe_copy_present n src dst dm w :
  fs.isfile (files w) (posixpath.join (_dir_path (target_dir dm)) [default src dst]) = true →
  ∃ w', repeat_call n (DirectoryMap_.safe_copy_file src dst) (State dm w)
          = (Return tt, State dm w')
        ∧ files w' = files w
        ∧ copies_made w' = copies_made w
        ∧ List.filter creates (oslog w') = List.filter creates (oslog w).
Proof.
  revert w. induction n as [|n IH]; intros w Hp.
  - by exists w.
  - simpl. rewrite bind_run, safe_copy_file_run. simpl. rewrite Hp.
    set (w1 := log_call _ w).
    destruct (IH w1) as (w' & Hrun & Hf & Hc & Hl); [done|].
    exists w'. split; [done|]. split; [by rewrite Hf|]. split.
    + rewrite Hc. by apply copies_made_log_query.
    + rewrite Hl. unfold w1. rewrite oslog_log_call, List.filter_app. simpl.
      by rewrite app_nil_r.
Qed.

(** C2.  [safe_copy_file(src_name, dst_name)] first asks
    [target_exists(dst_name)], with [dst_name] defaulting to [src_name].
    When the target file is absent it goes on as
    [copy_file(src_name, dst_name)].  When the target file is there it
    returns at once, leaving the map and the file system unchanged, which no
    call of [copy_file] ever does; and however many times it is then called
    in a row, every call returns, the file system stays the same and
    [shutil.copy] is called no further time. *)
Theorem safe_copy_file_copies_iff_absent src dst dm w :
  let p := posixpath.join (_dir_path (target_dir dm)) [default src dst] in
  let w1 := log_call (call_isfile p) w in
  (fs.isfile (files w) p = false →
     DirectoryMap_.safe_copy_file src dst (State dm w)
       = DirectoryMap_.copy_file src dst false ".new" (State dm w1))
  ∧ (fs.isfile (files w) p = true →
     DirectoryMap_.safe_copy_file src dst (State dm w) = (Return tt, State dm w1)
     ∧ DirectoryMap_.copy_file src dst false ".new" (State dm w1)
         ≠ (Return tt, State dm w1)
     ∧ ∀ n, ∃ w', repeat_call n (DirectoryMap_.safe_copy_file src dst) (State dm w)
                    = (Return tt, State dm w')
                  ∧ files w' = files w
                  ∧ copies_made w' = copies_made w).
Proof.
  intros p w1. split; intros Hp.
  - rewrite safe_copy_file_run. simpl. fold p. by rewrite Hp.
  - split; [|split].
    + rewrite safe_copy_file_run. simpl. fold p. by rewrite Hp.
    + apply copy_file_observable.
    + intros n. destruct (repeat_safe_copy_present n src dst dm w Hp) as (w' & ? & ? & ? & ?).
      by exists w'.
Qed.

(* ===================================================================== *)
(** * [Directory]: queries and the stored path *)
(* ===================================================================== *)

(** C8.  For every [Directory d], file name [f] and world: [d.get_path(f)]
    returns the join of the stored path with [f] and changes nothing, and
    [d.isfile(f)] returns a boolean that is true exactly when the file
    system has a regular file at that path; the file system is unchanged. *)
Theorem isfile_iff_regular_file_at_get_path (d : Directory) (f : string) (w : world) :
  ∃ path b w',
    Directory_.get_path (Some f) (State d w) = (Return path, State d w)
    ∧ path = posixpath.join (_dir_path d) [f]
    ∧ Directory_.isfile f (State d w) = (Return b, State d w')
    ∧ files w' = files w
    ∧ (b = true ↔ ∃ c, fs.lookup_node (files w) path = Some (File c)).
Proof.
  exists (posixpath.join (_dir_path d) [f]),
         (fs.isfile (files w) (posixpath.join (_dir_path d) [f])),
         (log_call (call_isfile (posixpath.join (_dir_path d) [f])) w).
  rewrite get_path_run, isfile_run. repeat split; try done.
  - unfold fs.isfile. destruct (fs.lookup_node _ _) as [[c|]|]; try done. eauto.
  - intros [c Hc]. unfold fs.isfile. by rewrite Hc.
Qed.

Lemma run_op_self op s : self (run_op op s).2 = self s.
Proof.
  destruct s as [d w], op as [fo| |f|]; unfold run_op.
  - rewrite bind_run, get_path_run. done.
  - rewrite bind_run, isdir_run. done.
  - rewrite bind_run, isfile_run. done.
  - apply makedir_self.
Qed.

Lemma run_ops_self stop ops s : self (run_ops stop ops s) = self s.
Proof.
  revert s. induction ops as [|op ops IH]; intros s; [done|].
  simpl. pose proof (run_op_self op s) as Hop.
  destruct (run_op op s) as [[[]|e] s']; simpl in Hop.
  - by rewrite IH.
  - destruct stop; [done|]. by rewrite IH.
Qed.

(** C10.  The stored path of a [Directory] is never written after
    construction: each of [get_path], [isdir], [isfile] and [makedir] leaves
    it as it was, whether it returns or raises, and so does every sequence of
    these operations, whether an exception ends the sequence or is caught;
    [get_path] gives the same result after the sequence as before it. *)
Theorem dir_path_never_mutated (stop : bool) (ops : list Directory_op)
    (s : state Directory) :
  (∀ op, _dir_path (self (run_op op s).2) = _dir_path (self s))
  ∧ _dir_path (self (run_ops stop ops s)) = _dir_path (self s)
  ∧ ∀ fo, (Directory_.get_path fo (run_ops stop ops s)).1
          = (Directory_.get_path fo s).1.
Proof.
  split; [|split].
  - intros op. by rewrite run_op_self.
  - by rewrite run_ops_self.
  - intros fo. pose proof (run_ops_self stop ops s) as Hs.
    destruct (run_ops stop ops s) as [d' w'], s as [d w]. simpl in Hs. subst d'.
    by rewrite !get_path_run.
Qed.

(* ===================================================================== *)
(** * Directory construction strategies *)
(* ===================================================================== *)

Section constructors.

Variable realpath abspath : gmap string node → string → string.
Variable user_data_dir : string → string → bool → string.
Variable site_data_dir : string → string → string.

Lemma ObjDirectory_run module_name paths w :
  ObjDirectory realpath abspath module_name paths (State tt w) =
    match sys_modules w !! module_name with
    | None => (Raise (Exc KeyError None module_name), State tt w)
    | Some mod_handle =>
        match __file__ mod_handle with
        | None => (Raise (Exc AttributeError None "__file__"), State tt w)
        | Some f =>
            let w1 := log_call (call_realpath f) w in
            let dirname := posixpath.dirname (realpath (files w) f) in
            let w2 := log_call (call_abspath dirname) w1 in
            (Return (Directory_.__init__
                       (posixpath.join (abspath (files w) dirname) paths)),
             State tt w2)
        end
    end.
Proof.
  unfold ObjDirectory, sys_modules_getitem. rewrite !bind_run. simpl.
  destruct (sys_modules w !! module_name) as [mod_handle|]; [|done].
  simpl. unfold module_dir, module_path. rewrite !bind_run.
  destruct (__file__ mod_handle); done.
Qed.

Lemma ObjDirectory_reads_only module_name paths w :
  let s' := (ObjDirectory realpath abspath module_name paths (State tt w)).2 in
  files (env s') = files w
  ∧ List.filter creates (oslog (env s')) = List.filter creates (oslog w).
Proof.
  rewrite ObjDirectory_run.
  destruct (sys_modules w !! module_name) as [mod_handle|]; [|done].
  destruct (__file__ mod_handle); [|done].
  simpl. split; [done|]. logs. rewrite List.filter_app. simpl. by rewrite app_nil_r.
Qed.

(** C6.  Constructing an [ObjDirectory] for a module name that
    [sys.modules] does not hold raises [KeyError], an instance of
    [LookupError], with the world unchanged.  None of the three construction
    strategies creates anything: [ObjDirectory], for any module name, leaves
    the file system as it was and makes no call that can create an entry,
    and [UserDataDirectory] and [SiteDataDirectory] return the directory
    object and leave the whole world unchanged. *)
Theorem ObjDirectory_unknown_module_raises
    (module_name package company : string) (paths : list string) (w : world) :
  sys_modules w !! module_name = None →
  (∃ e, ObjDirectory realpath abspath module_name paths (State tt w)
          = (Raise e, State tt w)
        ∧ exc_class e = KeyError
        ∧ isinstance e LookupError = true)
  ∧ (∀ registered,
       let s' := (ObjDirectory realpath abspath registered paths (State tt w)).2 in
       files (env s') = files w
       ∧ List.filter creates (oslog (env s')) = List.filter creates (oslog w))
  ∧ UserDataDirectory user_data_dir package company paths (State tt w)
      = (Return (Directory_.__init__
                   (posixpath.join (user_data_dir package company true) paths)),
         State tt w)
  ∧ SiteDataDirectory site_data_dir package company paths (State tt w)
      = (Return (Directory_.__init__
                   (posixpath.join (site_data_dir package company) paths)),
         State tt w).
Proof.
  intros Hnone. split; [|split; [|split]].
  - exists (Exc KeyError None module_name).
    rewrite ObjDirectory_run, Hnone. done.
  - intros registered. apply ObjDirectory_reads_only.
  - done.
  - done.
Qed.

End constructors.

(* ===================================================================== *)
(** * [Directory.makedir] *)
(* ===================================================================== *)

(** C5.  For every [Directory] and world: when [isdir()] is true,
    [makedir()] returns and leaves the file system as it is.  When [isdir()]
    is false, [makedir()] is the call [os.makedirs(path)], and on every
    creatable path this call returns, the directory and the directory it
    lies in exist afterwards, and every entry there was is kept.  Whenever a
    first call returns, the directory exists, and a second call returns and
    leaves the file system as the first call left it. *)
Theorem makedir_creates_only_when_absent (d : Directory) (w : world) :
  let path := _dir_path d in
  let w1 := log_call (call_isdir path) w in
  let w2 := log_call (call_makedirs path) w1 in
  (fs.isdir (files w) path = true →
     Directory_.makedir (State d w) = (Return tt, State d w1))
  ∧ (fs.isdir (files w) path = false →
     Directory_.makedir (State d w) = os.makedirs path (State d w1)
     ∧ (creatable (files w) path →
        ∃ m', Directory_.makedir (State d w) = (Return tt, State d (set_files m' w2))
              ∧ fs.isdir m' path = true
              ∧ fs.check_dir m' (fs.parent path) = None
              ∧ ∀ q x, fs.lookup_node (files w) q = Some x →
                       fs.lookup_node m' q = Some x))
  ∧ (∀ s', Directory_.makedir (State d w) = (Return tt, s') →
       fs.isdir (files (env s')) path = true
       ∧ Directory_.makedir s'
           = (Return tt, State d (log_call (call_isdir path) (env s')))
       ∧ files (log_call (call_isdir path) (env s')) = files (env s')).
Proof.
  intros path w1 w2. split; [|split].
  - intros Hd. rewrite makedir_run. simpl. fold path. by rewrite Hd.
  - intros Hd. split.
    + rewrite makedir_run. simpl. fold path. rewrite Hd.
      unfold os.makedirs, command. simpl. by destruct (fs.makedirs _ _).
    + intros (m' & Hm' & Hdir & Hpar & Hkeep)%makedirs_creatable.
      exists m'. rewrite makedir_run. simpl. fold path. by rewrite Hd, Hm'.
  - intros s'. rewrite makedir_run. simpl. fold path.
    destruct (fs.isdir (files w) path) eqn:Hd.
    + intros [= <-]. simpl. split; [done|]. split; [|done].
      rewrite makedir_run. simpl. fold path. by rewrite Hd.
    + destruct (fs.makedirs path (files w)) as [e|m'] eqn:Hm'; [done|].
      intros [= <-]. simpl.
      apply makedirs_inr in Hm' as (Hdir & _ & _).
      split; [done|]. split; [|done].
      rewrite makedir_run. simpl. fold path. by rewrite Hdir.
Qed.

(* ===================================================================== *)
(** * Writing and copying files *)
(* ===================================================================== *)

Lemma basename_nonempty p : posixpath.basename p ≠ EmptyString → p ≠ EmptyString.
Proof. by intros H ->. Qed.

Lemma basename_not_root p :
  posixpath.basename p ≠ EmptyString → posixpath.is_root p = false.
Proof.
  intros H. destruct (posixpath.is_root p) eqn:E; [|done].
  by apply is_root_basename in E.
Qed.

Lemma write_file_writable m path c :
  writable m path → fs.write_file path c m = inr (<[path := File c]> m).
Proof.
  intros (Hb & Hd & Hp). unfold fs.write_file.
  rewrite !bool_decide_eq_false_2, Hd, Hp; auto using basename_nonempty.
Qed.

Lemma write_file_inr m path c m' :
  fs.write_file path c m = inr m' → writable m path ∧ m' = <[path := File c]> m.
Proof.
  unfold fs.write_file, writable. repeat case_bool_decide; try done.
  destruct (fs.isdir m path); [done|].
  destruct (fs.check_dir m (posixpath.dirname path)); [done|].
  by intros [= <-].
Qed.

Lemma well_formed_file m p c :
  well_formed m → fs.lookup_node m p = Some (File c) → writable m p.
Proof.
  intros Hwf Hp. unfold fs.lookup_node in Hp.
  destruct (posixpath.is_root p) eqn:Hr; [done|].
  specialize (Hwf p (File c) Hp). simpl in Hwf.
  apply andb_prop in Hwf as [Hb%negb_true_iff%bool_decide_eq_false Hd%bool_decide_eq_true].
  repeat split; [done| |done].
  unfold fs.isdir, fs.lookup_node. rewrite Hr, Hp. by apply bool_decide_eq_false.
Qed.

(** What [shutil.copy] does when it returns: the source is a regular file,
    and its content is at the path the copy was directed to, or, when that
    path is a directory, in that directory under the source's base name. *)
Lemma copy_inr src dst m m' :
  fs.copy src dst m = inr m' →
  ∃ c, fs.lookup_node m src = Some (File c)
       ∧ src ≠ fs.copy_target src dst m
       ∧ writable m (fs.copy_target src dst m)
       ∧ m' = <[fs.copy_target src dst m := File c]> m.
Proof.
  unfold fs.copy, fs.copyfile, fs.samefile, fs.read_file.
  set (t := fs.copy_target src dst m).
  destruct (fs.lookup_node m src) as [[c|]|] eqn:Hsrc.
  - case_bool_decide as Hsame; simpl.
    + assert (fs.exists_ m src = true) as ->; [|done].
      unfold fs.exists_. rewrite Hsrc. by apply bool_decide_eq_true.
    + intros [Hw ->]%write_file_inr. eauto.
  - by destruct (bool_decide (src = t) && fs.exists_ m src).
  - by destruct (bool_decide (src = t) && fs.exists_ m src).
Qed.

Lemma copy_returns src dst m c :
  fs.lookup_node m src = Some (File c) →
  src ≠ fs.copy_target src dst m →
  writable m (fs.copy_target src dst m) →
  fs.copy src dst m = inr (<[fs.copy_target src dst m := File c]> m).
Proof.
  intros Hsrc Hne Hw. unfold fs.copy, fs.copyfile, fs.samefile, fs.read_file.
  rewrite bool_decide_eq_false_2 by done. simpl. rewrite Hsrc.
  by apply write_file_writable.
Qed.

Lemma copy_target_file src dst m :
  fs.isdir m dst = false → fs.copy_target src dst m = dst.
Proof. intros H. unfold fs.copy_target. by rewrite H. Qed.

(** [shutil.copy] on the file itself raises and writes nothing. *)
Lemma copy_same_file src m :
  is_Some (fs.lookup_node m src) → fs.isdir m src = false →
  fs.copy src src m = inl (Exc shutil_Error None src).
Proof.
  intros Hsome Hd. unfold fs.copy, fs.copyfile, fs.samefile.
  rewrite copy_target_file by done.
  rewrite bool_decide_eq_true_2 by done.
  unfold fs.exists_. by rewrite bool_decide_eq_true_2.
Qed.

Lemma rsplit_sep_no_sep e :
  posixpath.has_sep e = false → posixpath.rsplit_sep e = (EmptyString, e).
Proof.
  induction e as [|c e IH]; [done|]. simpl.
  intros [Hc He]%orb_false_elim. by rewrite (IH He), Hc.
Qed.

(** A suffix with no separator extends the last component. *)
Lemma rsplit_sep_app_ext p e :
  posixpath.has_sep e = false →
  posixpath.rsplit_sep (p +:+ e)
    = ((posixpath.rsplit_sep p).1, (posixpath.rsplit_sep p).2 +:+ e).
Proof.
  intros He. induction p as [|c p IH].
  - rewrite string_app_nil_l. by apply rsplit_sep_no_sep.
  - rewrite string_app_cons. simpl. rewrite IH.
    destruct (posixpath.rsplit_sep p) as [[|c' h] t]; simpl; [|done].
    by destruct (posixpath.is_sep c).
Qed.

Lemma dirname_app_ext p e :
  posixpath.has_sep e = false → posixpath.dirname (p +:+ e) = posixpath.dirname p.
Proof.
  intros He. unfold posixpath.dirname, posixpath.split.
  rewrite rsplit_sep_app_ext by done.
  destruct (posixpath.rsplit_sep p) as [h t]. simpl.
  by destruct (posixpath.rstrip_sep h).
Qed.

Lemma basename_app_ext p e :
  posixpath.has_sep e = false →
  posixpath.basename (p +:+ e) = posixpath.basename p +:+ e.
Proof.
  intros He. unfold posixpath.basename. by rewrite rsplit_sep_app_ext.
Qed.

Lemma string_app_nonempty_r s e : e ≠ EmptyString → s +:+ e ≠ EmptyString.
Proof.
  intros He H. apply (f_equal String.length) in H.
  rewrite string_app_length in H. destruct e; [done|]. simpl in H. lia.
Qed.

Lemma string_app_ne_self s e : e ≠ EmptyString → s +:+ e ≠ s.
Proof.
  intros He H. apply (f_equal String.length) in H.
  rewrite string_app_length in H. destruct e; [done|]. simpl in H. lia.
Qed.

(** The redirected path is the path of the file named [dst_name + new_ext]. *)
Lemma join_app_ext dir name e :
  name ≠ EmptyString →
  posixpath.join dir [name +:+ e] = posixpath.join dir [name] +:+ e.
Proof.
  intros Hn. unfold posixpath.join. simpl. unfold posixpath.join2.
  destruct name as [|c name]; [done|]. rewrite string_app_cons. simpl.
  destruct (posixpath.is_sep c); [done|].
  destruct (bool_decide (dir = EmptyString) || posixpath.endswith_sep dir);
    by rewrite <- ?string_app_cons, ?string_app_assoc.
Qed.

(** A file that can be written stays writable next to it, under a name
    extended by a suffix with no separator. *)
Lemma writable_app_ext m p e :
  posixpath.has_sep e = false → e ≠ EmptyString →
  writable m p → fs.isdir m (p +:+ e) = false → writable m (p +:+ e).
Proof.
  intros He Hne (Hb & _ & Hd) Hnd. repeat split; [|done|].
  - rewrite basename_app_ext by done. by apply string_app_nonempty_r.
  - by rewrite dirname_app_ext.
Qed.

(* ===================================================================== *)
(** * [DirectoryMap.copy_file] *)
(* ===================================================================== *)

Lemma copy_file_run_dir src dst ov ext dm S w :
  source_dir dm = Some S →
  fs.isdir (files w) (_dir_path (target_dir dm)) = true →
  DirectoryMap_.copy_file src dst ov ext (State dm w) =
    let p0 := posixpath.join (_dir_path (target_dir dm)) [default src dst] in
    let dstp := destination dm (default src dst) ov ext (files w) in
    let srcp := posixpath.join (_dir_path S) [src] in
    let w3 := log_call (call_copy srcp dstp)
                (log_call (call_isdir (_dir_path (target_dir dm)))
                   (log_call (call_isfile p0) w)) in
    match fs.copy srcp dstp (files w) with
    | inl e => (Raise e, State dm w3)
    | inr m => (Return tt, State (set_last_copy_path (Some dstp) dm) (set_files m w3))
    end.
Proof.
  intros HS HT. rewrite (copy_file_run src dst ov ext dm S w HS). simpl.
  rewrite makedir_run. simpl. rewrite HT. done.
Qed.

(** Whatever [copy_file] does, it records the destination exactly when it
    returns, and leaves the map as it was when it raises. *)
Lemma copy_file_last_copy_path src dst ov ext dm w :
  match DirectoryMap_.copy_file src dst ov ext (State dm w) with
  | (Return _, s') =>
      self s' = set_last_copy_path
                  (Some (destination dm (default src dst) ov ext (files w))) dm
  | (Raise _, s') => self s' = dm
  end.
Proof.
  destruct (source_dir dm) as [S|] eqn:HS.
  - rewrite (copy_file_run src dst ov ext dm S w HS). simpl.
    rewrite makedir_run. simpl.
    destruct (fs.isdir _ _).
    + by destruct (fs.copy _ _ _).
    + destruct (fs.makedirs _ _); [done|]. simpl. by destruct (fs.copy _ _ _).
  - by rewrite copy_file_no_source.
Qed.

Lemma init_last_copy_path target source :
  last_copy_path (DirectoryMap_.__init__ target source) = None.
Proof. reflexivity. Qed.

Lemma rsplit_sep_app_sep p :
  posixpath.rsplit_sep (p +:+ "/") = (p +:+ "/", EmptyString).
Proof.
  induction p as [|c p IH]; [done|].
  rewrite string_app_cons. simpl. rewrite IH.
  destruct (p +:+ "/") eqn:E; [|done].
  by apply string_app_nonempty_r in E.
Qed.

(** A regular file of a directory has a name. *)
Lemma file_in_dir_named m dir name c :
  well_formed m →
  fs.isdir m dir = true →
  fs.lookup_node m (posixpath.join dir [name]) = Some (File c) →
  name ≠ EmptyString.
Proof.
  intros Hwf Hd Hf ->. unfold posixpath.join in Hf. simpl in Hf.
  unfold posixpath.join2 in Hf. simpl in Hf.
  destruct (bool_decide (dir = EmptyString) || posixpath.endswith_sep dir).
  - rewrite string_app_nil_r in Hf. apply isdir_true in Hd. congruence.
  - apply (well_formed_file _ _ _ Hwf) in Hf as (Hb & _).
    apply Hb. unfold posixpath.basename.
    change (dir +:+ "/" +:+ EmptyString) with (dir +:+ "/").
    by rewrite rsplit_sep_app_sep.
Qed.



(** Two more ways for the call to raise or to miss the file it names. *)
Example copy_file_conflict_missing_source :
  DirectoryMap_.copy_file "b" (Some "a") false ".new" (State conf_map conf_world)
    = (Raise (io_error ENOENT "defaults/b"),
       State conf_map
         (World conf_files ∅
            [call_isfile "conf/a"; call_isdir "conf";
             call_copy "defaults/b" "conf/a.new"])).
Proof. by vm_compute. Qed.

Example copy_file_conflict_new_is_directory :
  let w := World (<["conf/a.new" := Dir]> conf_files) ∅ [] in
  ∃ w',
    DirectoryMap_.copy_file "a" None false ".new" (State conf_map w)
      = (Return tt, State (set_last_copy_path (Some "conf/a.new") conf_map) w')
    ∧ fs.lookup_node (files w') "conf/a.new" = Some Dir
    ∧ fs.lookup_node (files w') "conf/a.new/a" = Some (File "v2").
Proof. eexists. repeat split; by vm_compute. Qed.

(** C4.  Let the map have a source directory and the file system be well
    formed.  If the target directory exists and holds regular files
    [dst_name] and [dst_name + ".new"], and the source file exists, then
    after [copy_file(src_name, dst_name, overwrite=False)] the file
    [dst_name + ".new"] holds the content of the source file, whatever it
    held before, and [dst_name] keeps its content.  The calls made are the
    existence test of [dst_name], the test of the target directory and the
    copy: the redirected path is not tested.  Unless the source file is that
    very file, the call returns and records the redirected path. *)
Theorem copy_file_replaces_existing_new
    (src_name dst_name : string) (dm : DirectoryMap) (S : Directory)
    (w : world) (c_old c_new c_src : string) :
  let dst_path := posixpath.join (_dir_path (target_dir dm)) [dst_name] in
  let new_path := dst_path +:+ ".new" in
  let src_path := posixpath.join (_dir_path S) [src_name] in
  source_dir dm = Some S →
  well_formed (files w) →
  fs.isdir (files w) (_dir_path (target_dir dm)) = true →
  fs.lookup_node (files w) dst_path = Some (File c_old) →
  fs.lookup_node (files w) new_path = Some (File c_new) →
  fs.lookup_node (files w) src_path = Some (File c_src) →
  ∃ r dm' w',
    DirectoryMap_.copy_file src_name (Some dst_name) false ".new" (State dm w)
      = (r, State dm' w')
    ∧ fs.lookup_node (files w') new_path = Some (File c_src)
    ∧ fs.lookup_node (files w') dst_path = Some (File c_old)
    ∧ oslog w' = oslog w ++ [call_isfile dst_path;
                             call_isdir (_dir_path (target_dir dm));
                             call_copy src_path new_path]
    ∧ (src_path ≠ new_path →
       r = Return tt
       ∧ last_copy_path dm' = Some new_path
       ∧ files w' = <[new_path := File c_src]> (files w)).
Proof.
  intros dst_path new_path src_path HS Hwf HT Hdst Hnew Hsrc.
  assert (fs.isfile (files w) dst_path = true) as Hfile by (apply isfile_true; eauto).
  assert (destination dm dst_name false ".new" (files w) = new_path) as Hdest.
  { unfold destination. fold dst_path. by rewrite Hfile. }
  assert (fs.isdir (files w) new_path = false) as Hnd.
  { unfold fs.isdir. rewrite Hnew. by apply bool_decide_eq_false. }
  rewrite (copy_file_run_dir src_name (Some dst_name) false ".new" dm S w HS HT).
  simpl. rewrite Hdest. fold src_path.
  destruct (decide (src_path = new_path)) as [Heq|Hne].
  - rewrite Heq, copy_same_file by (rewrite ?Hnew; eauto).
    do 3 eexists. split; [done|]. logs.
    rewrite Heq in Hsrc. rewrite Hsrc in Hnew. injection Hnew as <-.
    done.
  - pose proof (well_formed_file _ _ _ Hwf Hnew) as Hw.
    rewrite (copy_returns src_path new_path (files w) c_src), copy_target_file;
      try done; try by rewrite copy_target_file.
    do 3 eexists. split; [done|]. logs. split; [|split; [|split]].
    + apply lookup_node_insert_eq. apply basename_not_root. apply Hw.
    + rewrite lookup_node_insert_ne; [done|]. by apply string_app_ne_self.
    + done.
    + done.
Qed.


(** [os.makedirs] creates directories only. *)
Lemma makedirs_fuel_files n name m m' :
  fs.makedirs_fuel n name m = inr m' →
  ∀ q c, fs.lookup_node m' q = Some (File c) → fs.lookup_node m q = Some (File c).
Proof.
  revert name m m'. induction n as [|n IH]; intros name m m'; [done|].
  rewrite makedirs_fuel_unfold.
  assert (∀ m1,
    (∀ q c, fs.lookup_node m1 q = Some (File c) → fs.lookup_node m q = Some (File c)) →
    match fs.mkdir name m1 with
    | inl e => inl (os_error e name)
    | inr m'' => inr m''
    end = inr m' →
    ∀ q c, fs.lookup_node m' q = Some (File c) → fs.lookup_node m q = Some (File c))
    as Hlast.
  { intros m1 Hback Hmk q c Hq.
    destruct (fs.mkdir name m1) as [e|m''] eqn:E; [done|]. injection Hmk as ->.
    apply mkdir_inr in E as (-> & _ & _ & _).
    destruct (decide (name = q)) as [->|Hne].
    - unfold fs.lookup_node in Hq. destruct (posixpath.is_root q); [done|].
      by rewrite lookup_insert_eq in Hq.
    - rewrite lookup_node_insert_ne in Hq by done. by apply Hback. }
  destruct (negb (bool_decide (fs.parent name = EmptyString))
            && negb (bool_decide (fs.last_component name = EmptyString))
            && negb (fs.exists_ m (fs.parent name))); [|by apply Hlast].
  destruct (fs.makedirs_fuel n (fs.parent name) m) as [e|m1] eqn:E.
  - destruct (bool_decide (exc_class e = OSError)
              && bool_decide (exc_errno e = Some EEXIST)); [|done].
    by apply Hlast.
  - apply Hlast. by apply (IH _ _ _ E).
Qed.

(** Where no directory is at the destination, [last_copy_path] is the path
    of the file that was written. *)
Lemma copy_file_records_written_path src dst ov ext dm S w s' :
  source_dir dm = Some S →
  DirectoryMap_.copy_file src dst ov ext (State dm w) = (Return tt, s') →
  let d := destination dm (default src dst) ov ext (files w) in
  last_copy_path (self s') = Some d
  ∧ (fs.isdir (files (env s')) d = false →
     ∃ c, fs.lookup_node (files w) (posixpath.join (_dir_path S) [src]) = Some (File c)
          ∧ fs.lookup_node (files (env s')) d = Some (File c)).
Proof.
  intros HS Hrun d.
  pose proof (copy_file_last_copy_path src dst ov ext dm w) as Hlast.
  rewrite Hrun in Hlast. split; [by rewrite Hlast|].
  rewrite (copy_file_run src dst ov ext dm S w HS) in Hrun. simpl in Hrun.
  rewrite makedir_run in Hrun. simpl in Hrun. fold d in Hrun.
  set (srcp := posixpath.join (_dir_path S) [src]) in *.
  assert (∀ m1, (∀ q x, fs.lookup_node (files w) q = Some x →
                         fs.lookup_node m1 q = Some x) →
                (∀ c, fs.lookup_node m1 srcp = Some (File c) →
                      fs.lookup_node (files w) srcp = Some (File c)) →
                ∀ m', fs.copy srcp d m1 = inr m' →
                fs.isdir m' d = false →
                ∃ c, fs.lookup_node (files w) srcp = Some (File c)
                     ∧ fs.lookup_node m' d = Some (File c)) as Hcopy.
  { intros m1 Hkeep Hback m' (c & Hsrc & Hne & Hw & ->)%copy_inr Hnd.
    exists c. split; [by apply Hback|].
    destruct (fs.isdir m1 d) eqn:Hd1.
    - exfalso. apply isdir_true in Hd1.
      assert (fs.copy_target srcp d m1 ≠ d) as Hneq.
      { intros Heq. destruct Hw as (_ & Hnotdir & _). rewrite Heq in Hnotdir.
        apply isdir_true in Hd1. congruence. }
      apply not_true_iff_false in Hnd. apply Hnd, isdir_true.
      by rewrite lookup_node_insert_ne.
    - rewrite copy_target_file in * by done.
      apply lookup_node_insert_eq, basename_not_root, Hw. }
  destruct (fs.isdir (files w) (_dir_path (target_dir dm))) eqn:HT; simpl in Hrun.
  - destruct (fs.copy srcp d (files w)) as [e|m'] eqn:Hc; [done|].
    injection Hrun as <-. simpl. by apply (Hcopy (files w)).
  - destruct (fs.makedirs _ (files w)) as [e|m1] eqn:Hmk; [done|]. simpl in Hrun.
    destruct (fs.copy srcp d m1) as [e|m'] eqn:Hc; [done|].
    injection Hrun as <-. simpl.
    apply (Hcopy m1); try done.
    + by apply makedirs_fuel_inr in Hmk as (_ & _ & _ & Hkeep & _).
    + intros c. by apply (makedirs_fuel_files _ _ _ _ Hmk).
Qed.

(* ===================================================================== *)
(** * [ReadYAML]: write, then read *)
(* ===================================================================== *)

Section yaml_round_trip.

Variable yaml_dump : yaml → string.
Variable yaml_load : string → option yaml.

Lemma on_config_directory_run {A} (m : M Directory A) rd w :
  on_config_directory m (State rd w) =
    let '(r, s') := m (State (config_directory rd) w) in
    (r, State {| config_directory := self s'; file_name := file_name rd |} (env s')).
Proof. reflexivity. Qed.

Lemma ReadYAML_write_run v rd w :
  ReadYAML_write yaml_dump v (State rd w) =
    let path := posixpath.join (_dir_path (config_directory rd)) [file_name rd] in
    match Directory_.makedir (State (config_directory rd) w) with
    | (Raise e, s1) => (Raise e, State rd (env s1))
    | (Return _, s1) =>
        let w2 := log_call (call_write path) (env s1) in
        match fs.write_file path (yaml_dump v) (files (env s1)) with
        | inl e => (Raise e, State rd w2)
        | inr m => (Return tt, State rd (set_files m w2))
        end
    end.
Proof.
  unfold ReadYAML_write. rewrite bind_run. simpl.
  rewrite bind_run, on_config_directory_run.
  pose proof (makedir_self (config_directory rd) w) as Hself.
  destruct (Directory_.makedir _) as [[[]|e] [d1 w1]]; simpl in *; subst d1;
    (assert ({| config_directory := config_directory rd; file_name := file_name rd |} = rd)
       as -> by by destruct rd); [|done].
  rewrite bind_run, on_config_directory_run, get_path_run. simpl.
  assert ({| config_directory := config_directory rd; file_name := file_name rd |} = rd)
    as -> by by destruct rd.
  unfold command. simpl. by destruct (fs.write_file _ _ _).
Qed.

Lemma ReadYAML_read_run rd w :
  ReadYAML_read yaml_load (State rd w) =
    let path := posixpath.join (_dir_path (config_directory rd)) [file_name rd] in
    let w1 := log_call (call_read path) w in
    match fs.read_file path (files w) with
    | inl e => (Raise e, State rd w1)
    | inr text =>
        match yaml_load text with
        | Some v => (Return v, State rd w1)
        | None => (Raise (Exc YAMLError None path), State rd w1)
        end
    end.
Proof.
  unfold ReadYAML_read. rewrite bind_run. simpl.
  rewrite bind_run, on_config_directory_run, get_path_run. simpl.
  assert ({| config_directory := config_directory rd; file_name := file_name rd |} = rd)
    as -> by by destruct rd.
  rewrite bind_run. simpl. destruct (fs.read_file _ _); [done|].
  by destruct (yaml_load _).
Qed.

(** Whatever the YAML library is, for a value [v] that it reads back from
    its own output: whenever [ReadYAML.write(v)] returns, the named file
    holds the serialization of [v], and [ReadYAML.read()] on the same file
    returns [v] and leaves the file system unchanged.  [write] does return
    when the configuration directory exists and the named file can be
    opened for writing. *)
Lemma ReadYAML_write_then_read (rd : ReadYAML) (v : yaml) (w : world) :
  yaml_load (yaml_dump v) = Some v →
  let dir := _dir_path (config_directory rd) in
  let path := posixpath.join dir [file_name rd] in
  (∀ s', ReadYAML_write yaml_dump v (State rd w) = (Return tt, s') →
     fs.lookup_node (files (env s')) path = Some (File (yaml_dump v))
     ∧ ∃ w'', ReadYAML_read yaml_load s' = (Return v, State rd w'')
              ∧ files w'' = files (env s'))
  ∧ (fs.isdir (files w) dir = true → writable (files w) path →
     ∃ s', ReadYAML_write yaml_dump v (State rd w) = (Return tt, s')).
Proof.
  intros Hcodec dir path. split.
  - intros s'. rewrite ReadYAML_write_run. simpl. fold dir path.
    destruct (Directory_.makedir _) as [[[]|e] s1]; [|done].
    destruct (fs.write_file path (yaml_dump v) (files (env s1))) as [e|m] eqn:Hw; [done|].
    intros [= <-]. simpl.
    apply write_file_inr in Hw as [(Hb & _) ->].
    assert (fs.lookup_node (<[path:=File (yaml_dump v)]> (files (env s1))) path
            = Some (File (yaml_dump v))) as Hlook
      by by apply lookup_node_insert_eq, basename_not_root.
    split; [done|].
    rewrite ReadYAML_read_run. simpl. fold dir path.
    unfold fs.read_file. logs. rewrite Hlook, Hcodec. eauto.
  - intros Hd Hw. rewrite ReadYAML_write_run. simpl. fold dir path.
    rewrite makedir_run. simpl. fold dir. rewrite Hd. simpl.
    rewrite write_file_writable by done. eauto.
Qed.

End yaml_round_trip.

(* ===================================================================== *)
(** * The YAML serializer and parser *)
(* ===================================================================== *)

(** Induction on a structured value, with the property at hand for the
    items of a sequence and the values of a mapping. *)
Lemma yaml_nested_ind (P : yaml → Prop) :
  (∀ s, P (YStr s)) →
  (∀ items, Forall P items → P (YSeq items)) →
  (∀ entries, Forall (λ e, P e.2) entries → P (YMap entries)) →
  ∀ v, P v.
Proof.
  intros Hs Hq Hm. fix IH 1. intros [s|items|entries].
  - apply Hs.
  - apply Hq. induction items as [|x xs IHxs]; constructor; [apply IH|apply IHxs].
  - apply Hm. induction entries as [|[k x] es IHes]; constructor; [apply IH|apply IHes].
Qed.

Section flow_codec.
Import flow.

Lemma unescape_escape_char c t :
  unescape (escape_char c t) =
    match unescape t with
    | Some (s, rest) => Some (String c s, rest)
    | None => None
    end.
Proof. destruct c as [[] [] [] [] [] [] [] []]; reflexivity. Qed.

Lemma unescape_escape_onto s rest :
  unescape (escape_onto s (String dquote rest)) = Some (s, rest).
Proof.
  induction s as [|c s IH]; [done|].
  simpl. by rewrite unescape_escape_char, IH.
Qed.

Lemma escape_char_length c t :
  String.length t < String.length (escape_char c t).
Proof.
  unfold escape_char. destruct (plain c); [simpl; lia|].
  destruct (_ || _); simpl; lia.
Qed.

Lemma escape_onto_length s t :
  String.length t ≤ String.length (escape_onto s t).
Proof.
  induction s as [|c s IH]; simpl; [lia|].
  pose proof (escape_char_length c (escape_onto s t)). lia.
Qed.

Lemma quoted_onto_length s t :
  String.length t + 2 ≤ String.length (quoted_onto s t).
Proof.
  unfold quoted_onto. simpl.
  pose proof (escape_onto_length s (String dquote t)) as H. simpl in H. lia.
Qed.

Lemma dump_onto_seq x xs rest :
  dump_onto (YSeq (x :: xs)) rest = String "[" (dump_onto x (items_tail xs rest)).
Proof. reflexivity. Qed.

Lemma dump_onto_map k x es rest :
  dump_onto (YMap ((k, x) :: es)) rest =
    String "{" (quoted_onto k (String ":" (String " "
      (dump_onto x (entries_tail es rest))))).
Proof. reflexivity. Qed.

(** A serialized value is longer than what follows it. *)
Lemma dump_onto_length v :
  ∀ rest, String.length rest < String.length (dump_onto v rest).
Proof.
  induction v as [s|items IH|entries IH] using yaml_nested_ind; intros rest.
  - pose proof (quoted_onto_length s rest). change (dump_onto (YStr s) rest) with (quoted_onto s rest). lia.
  - destruct items as [|x xs]; [simpl; lia|].
    rewrite dump_onto_seq. simpl.
    apply Forall_cons in IH as [Hx Hxs].
    specialize (Hx (items_tail xs rest)).
    enough (String.length rest < String.length (items_tail xs rest)) by lia.
    clear Hx. induction Hxs as [|y ys Hy _ IHys]; simpl; [lia|].
    specialize (Hy (items_tail ys rest)). unfold items_tail in *. lia.
  - destruct entries as [|[k x] es]; [simpl; lia|].
    rewrite dump_onto_map. simpl.
    apply Forall_cons in IH as [Hx Hes]. simpl in Hx.
    specialize (Hx (entries_tail es rest)).
    pose proof (quoted_onto_length k
                  (String ":" (String " " (dump_onto x (entries_tail es rest))))) as Hk.
    simpl in Hk.
    enough (String.length rest < String.length (entries_tail es rest)) by lia.
    clear Hx Hk. induction Hes as [|[k' y] ys Hy _ IHys]; simpl; [lia|].
    simpl in Hy. specialize (Hy (entries_tail ys rest)).
    pose proof (quoted_onto_length k'
                  (String ":" (String " " (dump_onto y (entries_tail ys rest))))) as Hk.
    simpl in Hk. unfold entries_tail in *. lia.
Qed.

Lemma items_tail_cons y ys rest :
  items_tail (y :: ys) rest = String "," (String " " (dump_onto y (items_tail ys rest))).
Proof. reflexivity. Qed.

Lemma entries_tail_cons k y ys rest :
  entries_tail ((k, y) :: ys) rest =
    String "," (String " " (quoted_onto k (String ":" (String " "
      (dump_onto y (entries_tail ys rest)))))).
Proof. reflexivity. Qed.

Lemma items_tail_length xs rest :
  String.length rest < String.length (items_tail xs rest).
Proof.
  induction xs as [|y ys IH]; [simpl; lia|].
  rewrite items_tail_cons. simpl.
  pose proof (dump_onto_length y (items_tail ys rest)). lia.
Qed.

Lemma entries_tail_length es rest :
  String.length rest < String.length (entries_tail es rest).
Proof.
  induction es as [|[k y] ys IH]; [simpl; lia|].
  rewrite entries_tail_cons. simpl.
  pose proof (dump_onto_length y (entries_tail ys rest)).
  pose proof (quoted_onto_length k
                (String ":" (String " " (dump_onto y (entries_tail ys rest))))) as Hk.
  simpl in Hk. lia.
Qed.


Lemma expect_dump_onto v t c :
  c = "]"%char ∨ c = "}"%char → expect c (dump_onto v t) = None.
Proof. by intros [-> | ->]; destruct v. Qed.

Lemma dict_set_fresh k v d :
  k ∉ d.*1 → dict_set k v d = d ++ [(k, v)].
Proof.
  induction d as [|[k' v'] d IH]; [done|]. simpl.
  rewrite not_elem_of_cons. intros [Hne Hnot].
  rewrite bool_decide_eq_false_2 by done. by rewrite IH.
Qed.

Lemma dict_of_distinct es :
  NoDup es.*1 → dict_of es = es.
Proof.
  unfold dict_of.
  enough (∀ d, NoDup (d ++ es).*1 →
               foldl (λ d e, dict_set e.1 e.2 d) d es = d ++ es) as H
    by (intros Hnd; exact (H [] Hnd)).
  induction es as [|[k v] es IH]; intros d Hnd; simpl.
  - by rewrite app_nil_r.
  - rewrite dict_set_fresh.
    + rewrite IH; rewrite <- app_assoc; [done|exact Hnd].
    + rewrite fmap_app in Hnd. apply NoDup_app in Hnd as (_ & Hd & _).
      intros Hin. apply (Hd _ Hin). simpl. left.
Qed.

Lemma parse_string n s rest :
  parse (S n) (quoted_onto s rest) = Some (YStr s, rest).
Proof. unfold quoted_onto. simpl. by rewrite unescape_escape_onto. Qed.

Lemma parse_entry_quoted n k t :
  parse_entry (S n) (quoted_onto k (String ":" (String " " t))) =
    '(x, rest) ← parse n t; Some ((k, x), rest).
Proof. unfold quoted_onto. simpl. by rewrite unescape_escape_onto. Qed.

(** Parsing reads a serialized value back and stops behind it, given fuel
    for the characters of the value. *)
Lemma parse_dump_onto v :
  well_keyed v = true →
  ∀ n rest, String.length (dump_onto v rest) ≤ n + String.length rest →
            parse n (dump_onto v rest) = Some (v, rest).
Proof.
  induction v as [s|items IH|entries IH] using yaml_nested_ind;
    intros Hwk n rest Hn.
  - pose proof (dump_onto_length (YStr s) rest).
    destruct n as [|n]; [lia|]. apply parse_string.
  - destruct items as [|x xs].
    { destruct n as [|n]; [simpl in Hn; lia|]. reflexivity. }
    destruct n as [|n].
    { pose proof (dump_onto_length (YSeq (x :: xs)) rest). lia. }
    rewrite dump_onto_seq in *. simpl in Hn.
    apply Forall_cons in IH as [Hx Hxs].
    simpl in Hwk. apply andb_true_iff in Hwk as [Hwx Hwxs].
    pose proof (items_tail_length xs rest) as Htail.
    pose proof (dump_onto_length x (items_tail xs rest)) as Hlen.
    change (parse (S n) (String "[" ?t)) with
      (match expect "]" t with
       | Some rest => Some (YSeq [], rest)
       | None => '(x, r1) ← parse n t; '(xs, rest) ← parse_items n r1;
                 Some (YSeq (x :: xs), rest)
       end).
    rewrite expect_dump_onto by auto.
    rewrite (Hx Hwx) by lia. simpl.
    enough (parse_items n (items_tail xs rest) = Some (xs, rest)) as -> by done.
    assert (String.length (items_tail xs rest) ≤ n + String.length rest) as Hfuel by lia.
    clear Hx Hwx Hn Hlen Htail. revert n Hfuel.
    induction Hxs as [|y ys Hy _ IHys]; intros n Hfuel.
    { destruct n as [|n]; [simpl in Hfuel; lia|]. reflexivity. }
    simpl in Hwxs. apply andb_true_iff in Hwxs as [Hwy Hwys].
    rewrite items_tail_cons in *. simpl in Hfuel.
    pose proof (items_tail_length ys rest).
    pose proof (dump_onto_length y (items_tail ys rest)).
    destruct n as [|n]; [lia|].
    change (parse_items (S n) (String "," (String " " ?t))) with
      ('(x, r1) ← parse n t; '(xs, rest) ← parse_items n r1; Some (x :: xs, rest)).
    rewrite (Hy Hwy) by lia. simpl.
    by rewrite (IHys Hwys) by lia.
  - destruct entries as [|[k x] es].
    { destruct n as [|n]; [simpl in Hn; lia|]. reflexivity. }
    destruct n as [|n].
    { pose proof (dump_onto_length (YMap ((k, x) :: es)) rest). lia. }
    rewrite dump_onto_map in *. simpl in Hn.
    apply Forall_cons in IH as [Hx Hes]. simpl in Hx.
    simpl in Hwk. apply andb_true_iff in Hwk as [Hnd Hwk].
    apply bool_decide_eq_true in Hnd.
    apply andb_true_iff in Hwk as [Hwx Hwes].
    pose proof (entries_tail_length es rest) as Htail.
    pose proof (dump_onto_length x (entries_tail es rest)) as Hlen.
    pose proof (quoted_onto_length k
      (String ":" (String " " (dump_onto x (entries_tail es rest))))) as Hk.
    simpl in Hk.
    change (parse (S n) (String "{" ?t)) with
      (match expect "}" t with
       | Some rest => Some (YMap [], rest)
       | None => '(e, r1) ← parse_entry n t; '(es, rest) ← parse_entries n r1;
                 Some (YMap (dict_of (e :: es)), rest)
       end).
    assert (expect "}" (quoted_onto k (String ":" (String " "
              (dump_onto x (entries_tail es rest))))) = None) as -> by done.
    destruct n as [|n]; [lia|].
    rewrite parse_entry_quoted, (Hx Hwx) by lia.
    assert (String.length (entries_tail es rest) ≤ S n + String.length rest) as Hfuel by lia.
    set (m := S n) in *. clearbody m. simpl.
    enough (parse_entries m (entries_tail es rest) = Some (es, rest)) as ->.
    { simpl. by rewrite (dict_of_distinct ((k, x) :: es)). }
    clear Hx Hwx Hn Hlen Htail Hk Hnd. revert m Hfuel. clear n.
    induction Hes as [|[k' y] ys Hy _ IHys]; intros n Hfuel.
    { destruct n as [|n]; [simpl in Hfuel; lia|]. reflexivity. }
    simpl in Hwes. apply andb_true_iff in Hwes as [Hwy Hwys]. simpl in Hy.
    rewrite entries_tail_cons in *. simpl in Hfuel.
    pose proof (entries_tail_length ys rest).
    pose proof (dump_onto_length y (entries_tail ys rest)).
    pose proof (quoted_onto_length k'
      (String ":" (String " " (dump_onto y (entries_tail ys rest))))) as Hk.
    simpl in Hk.
    destruct n as [|n]; [lia|].
    change (parse_entries (S n) (String "," (String " " ?t))) with
      ('(e, r1) ← parse_entry n t; '(es, rest) ← parse_entries n r1;
       Some (e :: es, rest)).
    destruct n as [|n]; [lia|].
    rewrite parse_entry_quoted, (Hy Hwy) by lia.
    assert (String.length (entries_tail ys rest) ≤ S n + String.length rest) as Hfuel' by lia.
    set (m := S n) in *. clearbody m. simpl.
    by rewrite (IHys Hwys) by done.
Qed.

(** The parser reads back what the serializer writes. *)
Lemma load_dump v : well_keyed v = true → load (dump v) = Some v.
Proof.
  intros Hwk. unfold load, dump.
  rewrite (parse_dump_onto v Hwk) by (simpl; lia).
  by rewrite bool_decide_eq_true_2 by auto.
Qed.

End flow_codec.

Lemma well_keyed_strings (l : list string) : well_keyed (YSeq (YStr <$> l)) = true.
Proof. simpl. by induction l. Qed.

(** The values of the round trip have distinct keys. *)
Lemma round_trip_value_well_keyed v :
  list_of_strings v ∨ nested_mapping v ∨ v = empty_mapping → well_keyed v = true.
Proof.
  intros [[l ->] | [(es & -> & Hwk) | ->]];
    [apply well_keyed_strings | exact Hwk | reflexivity].
Qed.

Example flow_load_empty_mapping : flow.load "{}" = Some empty_mapping.
Proof. reflexivity. Qed.

Example flow_load_refuses : flow.load "[curly, larry" = None.
Proof. reflexivity. Qed.


(* ===================================================================== *)
(** * Well-formed file systems *)
(* ===================================================================== *)

(** The calls keep the file system well formed: a regular file always lies
    in a directory that exists. *)

Lemma well_formed_empty : well_formed ∅.
Proof. apply map_Forall_empty. Qed.

Lemma check_dir_None m dir :
  fs.check_dir m dir = None ↔ dir = EmptyString ∨ fs.lookup_node m dir = Some Dir.
Proof.
  unfold fs.check_dir. case_bool_decide as Hd.
  - split; auto.
  - destruct (fs.lookup_node m dir) as [[c|]|]; split; try done; auto;
      by intros [?|?].
Qed.

Lemma entry_ok_mono m m' p n :
  (∀ q, fs.lookup_node m q = Some Dir → fs.lookup_node m' q = Some Dir) →
  entry_ok m p n = true → entry_ok m' p n = true.
Proof.
  intros Hdirs. destruct n as [c|]; [|done]. simpl.
  intros [Hb Hd%bool_decide_eq_true]%andb_prop. rewrite Hb. simpl.
  apply bool_decide_eq_true. apply check_dir_None in Hd as [->|Hd].
  - by apply check_dir_None; left.
  - apply check_dir_None. right. by apply Hdirs.
Qed.

Lemma well_formed_insert m p n :
  well_formed m →
  fs.lookup_node m p ≠ Some Dir →
  entry_ok m p n = true →
  well_formed (<[p := n]> m).
Proof.
  intros Hwf Hnd Hok.
  assert (∀ q, fs.lookup_node m q = Some Dir →
               fs.lookup_node (<[p := n]> m) q = Some Dir) as Hdirs.
  { intros q Hq. destruct (decide (p = q)) as [->|Hne]; [done|].
    by rewrite lookup_node_insert_ne. }
  apply map_Forall_insert_2.
  - by eapply entry_ok_mono.
  - intros q x Hq. eapply entry_ok_mono; [exact Hdirs|]. by apply Hwf.
Qed.

Lemma well_formed_write m path c m' :
  well_formed m → fs.write_file path c m = inr m' → well_formed m'.
Proof.
  intros Hwf [(Hb & Hd & Hp) ->]%write_file_inr.
  apply well_formed_insert; [done| |].
  - intros H. apply isdir_true in H. congruence.
  - simpl. rewrite bool_decide_eq_false_2 by done. simpl.
    by apply bool_decide_eq_true.
Qed.

Lemma well_formed_mkdir m name m' :
  well_formed m → fs.mkdir name m = inr m' → well_formed m'.
Proof.
  intros Hwf (-> & _ & Hfresh & _)%mkdir_inr.
  apply well_formed_insert; [done| |done]. by rewrite Hfresh.
Qed.

Lemma well_formed_makedirs_fuel n name m m' :
  well_formed m → fs.makedirs_fuel n name m = inr m' → well_formed m'.
Proof.
  revert name m m'. induction n as [|n IH]; intros name m m' Hwf; [done|].
  rewrite makedirs_fuel_unfold.
  assert (∀ m1, well_formed m1 →
            match fs.mkdir name m1 with
            | inl e => inl (os_error e name)
            | inr m'' => inr m''
            end = inr m' → well_formed m') as Hlast.
  { intros m1 Hwf1 Hmk. destruct (fs.mkdir name m1) as [e|m''] eqn:E; [done|].
    injection Hmk as ->. by eapply well_formed_mkdir. }
  destruct (negb (bool_decide (fs.parent name = EmptyString))
            && negb (bool_decide (fs.last_component name = EmptyString))
            && negb (fs.exists_ m (fs.parent name))); [|by apply Hlast].
  destruct (fs.makedirs_fuel n (fs.parent name) m) as [e|m1] eqn:E.
  - destruct (bool_decide (exc_class e = OSError)
              && bool_decide (exc_errno e = Some EEXIST)); [|done].
    by apply Hlast.
  - apply Hlast. by eapply IH.
Qed.

Lemma well_formed_copy src dst m m' :
  well_formed m → fs.copy src dst m = inr m' → well_formed m'.
Proof.
  intros Hwf. unfold fs.copy, fs.copyfile.
  destruct (fs.samefile _ _ _); [done|].
  destruct (fs.read_file src m); [done|]. by apply well_formed_write.
Qed.

(** Whatever [copy_file] does, it leaves a well-formed file system. *)
Lemma copy_file_well_formed src dst ov ext dm w :
  well_formed (files w) →
  well_formed (files (env (DirectoryMap_.copy_file src dst ov ext (State dm w)).2)).
Proof.
  intros Hwf. destruct (source_dir dm) as [S|] eqn:HS.
  - rewrite (copy_file_run src dst ov ext dm S w HS). simpl.
    rewrite makedir_run. simpl.
    destruct (fs.isdir _ _).
    + destruct (fs.copy _ _ _) eqn:Hc; simpl; [done|]. logs.
      by eapply well_formed_copy.
    + destruct (fs.makedirs _ _) as [e|m1] eqn:Hmk; [done|]. simpl.
      apply (well_formed_makedirs_fuel _ _ _ _ Hwf) in Hmk.
      destruct (fs.copy _ _ _) eqn:Hc; simpl; [done|]. logs.
      revert Hc. logs. intros Hc. by eapply well_formed_copy.
  - by rewrite copy_file_no_source.
Qed.

(* ===================================================================== *)
(** * The theorems at concrete inputs *)
(* ===================================================================== *)

Lemma well_formed_first_conflict : well_formed first_conflict_files.
Proof. apply (bool_decide_unpack _). by vm_compute. Qed.

Lemma well_formed_conf : well_formed conf_files.
Proof. apply (bool_decide_unpack _). by vm_compute. Qed.


(** [conf] holds [a]: provisioning [a] again, once or three times, copies
    nothing; [c] is absent, and provisioning it is [copy_file]. *)
Lemma safe_copy_file_witness :
  (DirectoryMap_.safe_copy_file "a" None (State conf_map conf_world)
     = (Return tt, State conf_map (log_call (call_isfile "conf/a") conf_world))
   ∧ ∃ w', repeat_call 3 (DirectoryMap_.safe_copy_file "a" None)
               (State conf_map conf_world)
             = (Return tt, State conf_map w')
           ∧ files w' = files conf_world
           ∧ copies_made w' = copies_made conf_world)
  ∧ DirectoryMap_.safe_copy_file "b" (Some "c") (State conf_map conf_world)
      = DirectoryMap_.copy_file "b" (Some "c") false ".new"
          (State conf_map (log_call (call_isfile "conf/c") conf_world)).
Proof.
  split.
  - destruct (safe_copy_file_copies_iff_absent "a" None conf_map conf_world)
      as [_ Hpresent].
    destruct Hpresent as (Hrun & _ & Hmany); [by vm_compute|].
    split; [exact Hrun | exact (Hmany 3)].
  - destruct (safe_copy_file_copies_iff_absent "b" (Some "c") conf_map conf_world)
      as [Habsent _].
    apply Habsent. by vm_compute.
Defined.

(** A map with no source: both calls raise. *)
Lemma copy_file_without_source_witness :
  DirectoryMap_.copy_file "a" None false ".new" (State conf_only_map conf_world)
    = (Raise no_source_error, State conf_only_map conf_world)
  ∧ DirectoryMap_.safe_copy_file "b" None (State conf_only_map conf_world)
      = (Raise no_source_error,
         State conf_only_map (log_call (call_isfile "conf/b") conf_world)).
Proof.
  split.
  - exact (proj1 (copy_file_without_source_raises "a" None false ".new"
                    conf_only_map conf_world eq_refl)).
  - destruct (copy_file_without_source_raises "b" None false ".new"
                conf_only_map conf_world eq_refl) as (_ & _ & Hsafe).
    apply Hsafe. by vm_compute.
Defined.

(** [conf] holds [a] and an [a.new] from an earlier conflict: the next
    conflict replaces [a.new]. *)
Lemma copy_file_replaces_witness :
  ∃ dm' w',
    DirectoryMap_.copy_file "a" (Some "a") false ".new" (State conf_map conf_world)
      = (Return tt, State dm' w')
    ∧ last_copy_path dm' = Some "conf/a.new"
    ∧ fs.lookup_node (files conf_world) "conf/a.new" = Some (File "v1")
    ∧ fs.lookup_node (files w') "conf/a.new" = Some (File "v2")
    ∧ fs.lookup_node (files w') "conf/a" = Some (File "user").
Proof.
  destruct (copy_file_replaces_existing_new "a" "a" conf_map
              (Directory_.__init__ "defaults") conf_world "user" "v1" "v2")
    as (r & dm' & w' & Hrun & Hnew & Hold & _ & Hret);
    [reflexivity | exact well_formed_conf | by vm_compute | by vm_compute
    | by vm_compute | by vm_compute |].
  destruct Hret as (-> & Hlast & _); [done|].
  exists dm', w'. split; [exact Hrun|]. split; [exact Hlast|].
  split; [by vm_compute|]. split; [exact Hnew | exact Hold].
Defined.

(** [conf] exists and is left alone; [var/lib/polite] is created with
    [var] and [var/lib]. *)
Lemma makedir_witness :
  (Directory_.makedir (State (Directory_.__init__ "conf") conf_world)
     = (Return tt,
        State (Directory_.__init__ "conf") (log_call (call_isdir "conf") conf_world)))
  ∧ ∃ m', Directory_.makedir (State (Directory_.__init__ "var/lib/polite") conf_world)
            = (Return tt,
               State (Directory_.__init__ "var/lib/polite")
                 (set_files m'
                    (log_call (call_makedirs "var/lib/polite")
                       (log_call (call_isdir "var/lib/polite") conf_world))))
          ∧ fs.isdir m' "var/lib/polite" = true
          ∧ fs.check_dir m' "var/lib" = None.
Proof.
  split.
  - destruct (makedir_creates_only_when_absent (Directory_.__init__ "conf") conf_world)
      as (Hnoop & _ & _).
    apply Hnoop. by vm_compute.
  - destruct (makedir_creates_only_when_absent
                (Directory_.__init__ "var/lib/polite") conf_world)
      as (_ & Hmake & _).
    destruct Hmake as [_ Hmake]; [by vm_compute|].
    destruct Hmake as (m' & Hrun & Hdir & Hpar & _).
    { apply creatable_below; try done; try by vm_compute.
      apply creatable_below; try done; try by vm_compute.
      apply creatable_here; try done; by vm_compute. }
    exists m'. split; [exact Hrun|]. split; [exact Hdir | exact Hpar].
Defined.

(** No module is loaded in [conf_world]. *)
Lemma ObjDirectory_unknown_module_witness :
  ∃ e, ObjDirectory (λ _ p, p) (λ _ p, p) "polite.missing" [".."; "examples"; "config"]
           (State tt conf_world)
         = (Raise e, State tt conf_world)
       ∧ exc_class e = KeyError
       ∧ isinstance e LookupError = true.
Proof.
  exact (proj1 (ObjDirectory_unknown_module_raises (λ _ p, p) (λ _ p, p)
                  (λ _ _ _, "/home/user/.local/share") (λ _ _, "/usr/share")
                  "polite.missing" "polite" "acme" [".."; "examples"; "config"]
                  conf_world eq_refl)).
Defined.


(* ===================================================================== *)
(** * Further properties of [copy_file] *)
(* ===================================================================== *)

(** A step of the copy writes one regular file and nothing else; a
    directory is never replaced. *)
Lemma copy_effect src dst m m' :
  fs.copy src dst m = inr m' →
  ∃ t c, m' = <[t := File c]> m ∧ fs.isdir m t = false
         ∧ posixpath.is_root t = false
         ∧ fs.lookup_node m src = Some (File c)
         ∧ t = fs.copy_target src dst m.
Proof.
  intros (c & Hsrc & _ & Hw & ->)%copy_inr.
  exists (fs.copy_target src dst m), c. repeat split; try done.
  - apply Hw.
  - apply basename_not_root, Hw.
Qed.

(** The file system a computation of [copy_file] ends with, in terms of the
    one it starts with: [os.makedirs] may have run, and then at most one
    regular file was written. *)
Lemma copy_file_effect src dst ov ext dm w :
  let s' := (DirectoryMap_.copy_file src dst ov ext (State dm w)).2 in
  ∃ m1,
    (m1 = files w
     ∨ fs.isdir (files w) (_dir_path (target_dir dm)) = false
       ∧ fs.makedirs (_dir_path (target_dir dm)) (files w) = inr m1)
    ∧ (files (env s') = m1
       ∨ ∃ t c, files (env s') = <[t := File c]> m1
                ∧ fs.isdir m1 t = false
                ∧ posixpath.is_root t = false).
Proof.
  simpl. destruct (source_dir dm) as [S|] eqn:HS.
  - rewrite (copy_file_run src dst ov ext dm S w HS). simpl.
    rewrite makedir_run. simpl.
    destruct (fs.isdir (files w) (_dir_path (target_dir dm))) eqn:HT.
    + exists (files w). split; [by left|].
      destruct (fs.copy _ _ _) as [e|m'] eqn:Hc; simpl; [by left|].
      right. apply copy_effect in Hc as (t & c & -> & ? & ? & _). eauto.
    + destruct (fs.makedirs _ _) as [e|m1] eqn:Hmk; simpl.
      * exists (files w). split; [by left|]. by left.
      * exists m1. split; [by right|].
        destruct (fs.copy _ _ _) as [e|m'] eqn:Hc; simpl; [by left|].
        right. revert Hc. logs. intros Hc.
        apply copy_effect in Hc as (t & c & -> & ? & ? & _). eauto.
  - rewrite copy_file_no_source by done. exists (files w). split; by left.
Qed.

(** X3.  [copy_file] removes nothing and changes the kind of nothing,
    however it ends: a directory is a directory afterwards, a regular file
    is a regular file afterwards, and a path that names nothing afterwards
    named nothing before. *)
Theorem copy_file_never_removes (src_name : string) (dst_name : option string)
    (overwrite : bool) (new_ext : string) (dm : DirectoryMap) (w : world)
    (q : string) :
  let s' := (DirectoryMap_.copy_file src_name dst_name overwrite new_ext
               (State dm w)).2 in
  (fs.isdir (files w) q = true → fs.isdir (files (env s')) q = true)
  ∧ (fs.isfile (files w) q = true → fs.isfile (files (env s')) q = true)
  ∧ (fs.exists_ (files (env s')) q = false → fs.exists_ (files w) q = false).
Proof.
  intros s'.
  destruct (copy_file_effect src_name dst_name overwrite new_ext dm w)
    as (m1 & Hm1 & Hs'). fold s' in Hs'.
  assert (∀ x, fs.lookup_node (files w) q = Some x → fs.lookup_node m1 q = Some x)
    as Hkeep.
  { destruct Hm1 as [->|[_ Hmk]]; [done|].
    intros x Hx. by apply makedirs_inr in Hmk as (_ & _ & Hk); apply Hk. }
  assert (∀ c, fs.lookup_node m1 q = Some (File c) →
               fs.lookup_node (files w) q = Some (File c)) as Hback.
  { destruct Hm1 as [->|[_ Hmk]]; [done|].
    intros c. by apply (makedirs_fuel_files _ _ _ _ Hmk). }
  assert ((fs.lookup_node m1 q = Some Dir → fs.lookup_node (files (env s')) q = Some Dir)
          ∧ (∀ c, fs.lookup_node m1 q = Some (File c) →
                  ∃ c', fs.lookup_node (files (env s')) q = Some (File c')))
    as [Hdir Hfile].
  { destruct Hs' as [->|(t & c & -> & Hnd & Hroot)]; [eauto|].
    split.
    - intros Hq. rewrite lookup_node_insert_ne; [done|].
      intros ->. apply isdir_true in Hq. congruence.
    - intros c0 Hq. destruct (decide (t = q)) as [->|Hne].
      + exists c. by apply lookup_node_insert_eq.
      + exists c0. by rewrite lookup_node_insert_ne. }
  split; [|split].
  - rewrite !isdir_true. eauto.
  - rewrite !isfile_true. intros [c Hc]. eauto.
  - rewrite !exists_false. intros Hnone.
    destruct (fs.lookup_node (files w) q) as [[c|]|] eqn:E; [| |done].
    + destruct (Hfile c (Hkeep _ eq_refl)) as [c' Hc']. congruence.
    + rewrite (Hdir (Hkeep _ eq_refl)) in Hnone. done.
Qed.

Lemma rsplit_tail_no_sep p : posixpath.has_sep (posixpath.rsplit_sep p).2 = false.
Proof.
  induction p as [|c p IH]; [done|]. simpl.
  destruct (posixpath.rsplit_sep p) as [[|c' h] t]; simpl in *; [|done].
  destruct (posixpath.is_sep c) eqn:Hc; simpl; [done|]. by rewrite Hc.
Qed.

Lemma has_sep_startswith s :
  posixpath.has_sep s = false → posixpath.startswith_sep s = false.
Proof. destruct s; [done|]. simpl. by intros [? _]%orb_false_elim. Qed.

(** Joining a relative name never shortens the path. *)
Lemma join_relative_length dir name :
  posixpath.startswith_sep name = false →
  String.length dir ≤ String.length (posixpath.join dir [name]).
Proof.
  intros Hn. unfold posixpath.join. simpl. unfold posixpath.join2. rewrite Hn.
  destruct (bool_decide (dir = EmptyString) || posixpath.endswith_sep dir);
    rewrite !string_app_length; lia.
Qed.

Lemma copy_target_length src dst m :
  String.length dst ≤ String.length (fs.copy_target src dst m).
Proof.
  unfold fs.copy_target. destruct (fs.isdir m dst); [|done].
  apply join_relative_length, has_sep_startswith, rsplit_tail_no_sep.
Qed.

(** The five ways a call of [copy_file] with a source directory can go:
    the target directory is there or is made (or making it fails), and the
    copy returns or raises. *)
Ltac copy_file_cases HS :=
  rewrite (copy_file_run _ _ _ _ _ _ _ HS); simpl;
  rewrite makedir_run; simpl;
  destruct (fs.isdir _ (_dir_path (target_dir _))) eqn:?HT;
  [ destruct (fs.copy _ _ _) eqn:?Hc
  | destruct (fs.makedirs _ _) eqn:?Hmk;
    [ | simpl; destruct (fs.copy _ _ _) eqn:?Hc ] ];
  simpl.


(** X1.  [copy_file] replaces the destination in place when [overwrite] is
    true, and also when [new_ext] is the empty string, whatever [overwrite]
    is: in a well-formed file system whose target directory exists and holds
    a regular file [dst_name], with an existing source file that is another
    file, the call returns, [dst_name] holds the content of the source file,
    no other entry changes (no redirected file is made), and
    [last_copy_path] is the path of [dst_name]. *)
Theorem copy_file_overwrites_in_place (src_name dst_name new_ext : string)
    (overwrite : bool) (dm : DirectoryMap) (S : Directory) (w : world)
    (c_old c_src : string) :
  let dst_path := posixpath.join (_dir_path (target_dir dm)) [dst_name] in
  let src_path := posixpath.join (_dir_path S) [src_name] in
  overwrite = true ∨ new_ext = EmptyString →
  source_dir dm = Some S →
  well_formed (files w) →
  fs.isdir (files w) (_dir_path (target_dir dm)) = true →
  fs.lookup_node (files w) dst_path = Some (File c_old) →
  fs.lookup_node (files w) src_path = Some (File c_src) →
  src_path ≠ dst_path →
  ∃ w',
    DirectoryMap_.copy_file src_name (Some dst_name) overwrite new_ext (State dm w)
      = (Return tt, State (set_last_copy_path (Some dst_path) dm) w')
    ∧ files w' = <[dst_path := File c_src]> (files w)
    ∧ fs.lookup_node (files w') dst_path = Some (File c_src).
Proof.
  intros dst_path src_path Hmode HS Hwf HT Hdst Hsrc Hne.
  assert (destination dm dst_name overwrite new_ext (files w) = dst_path) as Hdest.
  { unfold destination. fold dst_path. destruct Hmode as [->| ->].
    - by rewrite andb_false_r.
    - rewrite string_app_nil_r. by destruct (_ && _). }
  pose proof (well_formed_file _ _ _ Hwf Hdst) as Hw.
  assert (fs.isdir (files w) dst_path = false) as Hnd by apply Hw.
  rewrite (copy_file_run_dir src_name (Some dst_name) overwrite new_ext dm S w HS HT).
  simpl. rewrite Hdest. fold src_path.
  rewrite (copy_returns src_path dst_path (files w) c_src), copy_target_file;
    try done; try by rewrite copy_target_file.
  eexists. split; [done|]. logs. split; [done|].
  apply lookup_node_insert_eq, basename_not_root, Hw.
Qed.

(** X4.  Whenever [copy_file] returns, the target directory exists, and
    the map's [target_dir] and [source_dir] are the ones it had. *)
Theorem copy_file_leaves_target_directory (src_name : string)
    (dst_name : option string) (overwrite : bool) (new_ext : string)
    (dm : DirectoryMap) (w : world) (s' : state DirectoryMap) :
  DirectoryMap_.copy_file src_name dst_name overwrite new_ext (State dm w)
    = (Return tt, s') →
  fs.isdir (files (env s')) (_dir_path (target_dir dm)) = true
  ∧ target_dir (self s') = target_dir dm
  ∧ source_dir (self s') = source_dir dm.
Proof.
  intros Hrun.
  pose proof (copy_file_last_copy_path src_name dst_name overwrite new_ext dm w) as Hself.
  rewrite Hrun in Hself. split; [|by rewrite Hself].
  assert (∀ src d m m', fs.isdir m (_dir_path (target_dir dm)) = true →
            fs.copy src d m = inr m' →
            fs.isdir m' (_dir_path (target_dir dm)) = true) as Hcopy.
  { intros src d m m' Hd (t & c & -> & Hnd & _)%copy_effect.
    apply isdir_true. rewrite lookup_node_insert_ne; [by apply isdir_true|].
    intros ->. congruence. }
  destruct (source_dir dm) as [S|] eqn:HS;
    [|by rewrite copy_file_no_source in Hrun].
  revert Hrun. copy_file_cases HS; intros [= <-]; simpl; logs.
  - by eapply Hcopy.
  - revert Hc. logs. intros Hc. apply makedirs_inr in Hmk as (Hd & _).
    by eapply Hcopy.
Qed.

(** X13.  [makedir] keeps every entry, and creates directories only:
    however it ends, each entry there was is there unchanged, each regular
    file there is was there before, and a path whose entry differs names a
    new directory and is no longer than the path of the [Directory]. *)
Theorem makedir_keeps_entries (d : Directory) (w : world) (q : string) :
  let s' := (Directory_.makedir (State d w)).2 in
  (∀ x, fs.lookup_node (files w) q = Some x →
        fs.lookup_node (files (env s')) q = Some x)
  ∧ (∀ c, fs.lookup_node (files (env s')) q = Some (File c) →
          fs.lookup_node (files w) q = Some (File c))
  ∧ (fs.lookup_node (files (env s')) q ≠ fs.lookup_node (files w) q →
     fs.lookup_node (files (env s')) q = Some Dir
     ∧ String.length q ≤ String.length (_dir_path d)).
Proof.
  simpl. rewrite makedir_run. simpl.
  destruct (fs.isdir _ _); [done|].
  destruct (fs.makedirs _ _) as [e|m1] eqn:Hmk; [done|]. simpl. logs.
  pose proof (makedirs_fuel_files _ _ _ _ Hmk) as Hfiles.
  apply makedirs_fuel_inr in Hmk as (_ & _ & _ & Hkeep & Hframe).
  split; [by apply Hkeep|]. split; [by apply Hfiles|].
  intros Hchg.
  assert (String.length q ≤ String.length (_dir_path d)) as Hlen.
  { destruct (decide (String.length (_dir_path d) < String.length q)) as [Hlt|]; [|lia].
    by rewrite Hframe in Hchg. }
  split; [|done].
  destruct (fs.lookup_node m1 q) as [[c|]|] eqn:E; [|done|].
  - by rewrite (Hfiles _ _ E) in Hchg.
  - destruct (fs.lookup_node (files w) q) as [x|] eqn:E'; [|done].
    apply Hkeep in E'. congruence.
Qed.

(* ===================================================================== *)
(** * Plain file names in a directory *)
(* ===================================================================== *)

Lemma rstrip_sep_app_sep p :
  posixpath.rstrip_sep (p +:+ "/") = posixpath.rstrip_sep p.
Proof.
  induction p as [|c p IH]; [done|].
  rewrite string_app_cons. simpl. by rewrite IH.
Qed.

Lemma rstrip_sep_id p :
  posixpath.endswith_sep p = false → posixpath.rstrip_sep p = p.
Proof.
  induction p as [|c p IH]; [done|]. simpl.
  destruct p as [|c' p].
  - intros ->. done.
  - intros H. rewrite (IH H). done.
Qed.

(** The path of a plain name in a directory splits into the directory and
    the name. *)
Lemma split_join_plain dir name :
  dir ≠ EmptyString →
  posixpath.endswith_sep dir = false →
  posixpath.has_sep name = false →
  posixpath.split (posixpath.join dir [name]) = (dir, name)
  ∧ posixpath.basename (posixpath.join dir [name]) = name.
Proof.
  intros Hd He Hn.
  assert (posixpath.join dir [name] = (dir +:+ "/") +:+ name) as ->.
  { unfold posixpath.join. simpl. unfold posixpath.join2.
    rewrite (has_sep_startswith _ Hn), He, bool_decide_eq_false_2 by done.
    simpl. by rewrite string_app_assoc. }
  unfold posixpath.split, posixpath.basename.
  rewrite rsplit_sep_app_ext, rsplit_sep_app_sep by done. simpl.
  rewrite string_app_nil_l, rstrip_sep_app_sep, rstrip_sep_id by done.
  by destruct dir.
Qed.


(* ===================================================================== *)
(** * Further properties of [safe_copy_file], names and constructors *)
(* ===================================================================== *)

(** X8.  Provisioning happens once: if the target file is absent,
    [safe_copy_file] returns and no directory is at the target path, then
    the target file now holds the content of the source file,
    [last_copy_path] is its path, and any number of further
    [safe_copy_file] calls return with the file system unchanged and no
    further call of [shutil.copy]. *)
Theorem safe_copy_file_provisions_once (src_name : string)
    (dst_name : option string) (dm : DirectoryMap) (S : Directory) (w : world)
    (s' : state DirectoryMap) :
  let dst_path :=
    posixpath.join (_dir_path (target_dir dm)) [default src_name dst_name] in
  let src_path := posixpath.join (_dir_path S) [src_name] in
  source_dir dm = Some S →
  fs.isfile (files w) dst_path = false →
  DirectoryMap_.safe_copy_file src_name dst_name (State dm w) = (Return tt, s') →
  fs.isdir (files (env s')) dst_path = false →
  (∃ c, fs.lookup_node (files w) src_path = Some (File c)
        ∧ fs.lookup_node (files (env s')) dst_path = Some (File c))
  ∧ last_copy_path (self s') = Some dst_path
  ∧ ∀ n, ∃ w'', repeat_call n (DirectoryMap_.safe_copy_file src_name dst_name) s'
                  = (Return tt, State (self s') w'')
                ∧ files w'' = files (env s')
                ∧ copies_made w'' = copies_made (env s').
Proof.
  intros dst_path src_path HS Habs Hrun Hnd.
  rewrite safe_copy_file_run in Hrun. simpl in Hrun. fold dst_path in Hrun.
  rewrite Habs in Hrun.
  assert (destination dm (default src_name dst_name) false ".new" (files w)
          = dst_path) as Hdest.
  { unfold destination. fold dst_path. by rewrite Habs. }
  pose proof (copy_file_records_written_path src_name dst_name false ".new" dm S
                _ s' HS Hrun) as Hrec.
  simpl in Hrec. rewrite ?files_log_call, Hdest in Hrec.
  destruct Hrec as [Hlast Hfile]. specialize (Hfile Hnd).
  split; [done|]. split; [done|].
  pose proof (copy_file_last_copy_path src_name dst_name false ".new" dm
                (log_call (call_isfile dst_path) w)) as Hself.
  rewrite Hrun in Hself.
  intros n. destruct s' as [dm' w']. simpl in *.
  destruct (repeat_safe_copy_present n src_name dst_name dm' w')
    as (w'' & Hn & Hf & Hc & _).
  { rewrite Hself. simpl. fold dst_path. apply isfile_true.
    destruct Hfile as (c & _ & Hc). eauto. }
  by exists w''.
Qed.

(** The path [shutil.copy] writes is the same path when asked again after
    the copy. *)
Lemma copy_target_written src dst m c :
  fs.isdir m (fs.copy_target src dst m) = false →
  posixpath.is_root (fs.copy_target src dst m) = false →
  fs.copy_target src dst (<[fs.copy_target src dst m := File c]> m)
  = fs.copy_target src dst m.
Proof.
  unfold fs.copy_target. destruct (fs.isdir m dst) eqn:Hd; intros Ht Hr.
  - assert (fs.isdir (<[posixpath.join dst [posixpath.basename src] := File c]> m) dst
            = true) as ->; [|done].
    apply isdir_true. rewrite lookup_node_insert_ne; [by apply isdir_true|].
    intros Heq. rewrite Heq in Ht. congruence.
  - assert (fs.isdir (<[dst := File c]> m) dst = false) as ->; [|done].
    unfold fs.isdir. by rewrite lookup_node_insert_eq.
Qed.

(** X7.  Whenever [copy_file] returns, it has called [shutil.copy] once,
    and one file is written: the destination handed to [shutil.copy] or,
    when a directory is there, the entry of the source's base name in that
    directory.  The written path is not the source file, which exists; it
    holds the source's content afterwards; and at every other path the
    regular files and their contents are those from before, so no other
    regular file is created, changed or removed. *)
Theorem copy_file_writes_one_file (src_name : string) (dst_name : option string)
    (overwrite : bool) (new_ext : string) (dm : DirectoryMap) (S : Directory)
    (w : world) (s' : state DirectoryMap) :
  source_dir dm = Some S →
  DirectoryMap_.copy_file src_name dst_name overwrite new_ext (State dm w)
    = (Return tt, s') →
  let src_path := posixpath.join (_dir_path S) [src_name] in
  let dst_path :=
    destination dm (default src_name dst_name) overwrite new_ext (files w) in
  let written := fs.copy_target src_path dst_path (files (env s')) in
  ∃ c,
    fs.lookup_node (files w) src_path = Some (File c)
    ∧ written ≠ src_path
    ∧ fs.lookup_node (files (env s')) written = Some (File c)
    ∧ (∀ q c', q ≠ written →
         (fs.lookup_node (files (env s')) q = Some (File c')
          ↔ fs.lookup_node (files w) q = Some (File c')))
    ∧ copies_made (env s') = Datatypes.S (copies_made w).
Proof.
  intros HS Hrun src_path dst_path written. subst written.
  assert (∀ m m',
            (∀ q x, fs.lookup_node (files w) q = Some x → fs.lookup_node m q = Some x) →
            (∀ q c, fs.lookup_node m q = Some (File c) →
                    fs.lookup_node (files w) q = Some (File c)) →
            fs.copy src_path dst_path m = inr m' →
            ∃ c, fs.lookup_node (files w) src_path = Some (File c)
                 ∧ fs.copy_target src_path dst_path m' ≠ src_path
                 ∧ fs.lookup_node m' (fs.copy_target src_path dst_path m') = Some (File c)
                 ∧ ∀ q c', q ≠ fs.copy_target src_path dst_path m' →
                     (fs.lookup_node m' q = Some (File c')
                      ↔ fs.lookup_node (files w) q = Some (File c'))) as Hcopy.
  { intros m m' Hkeep Hback (c & Hsrc & Hne & (Hb & Hd & _) & ->)%copy_inr.
    rewrite copy_target_written by (done || by apply basename_not_root).
    exists c. split; [by apply Hback|]. split; [done|].
    split; [by apply lookup_node_insert_eq, basename_not_root|].
    intros q c' Hq. rewrite lookup_node_insert_ne by done. split; auto. }
  revert Hrun. fold src_path. 
  copy_file_cases HS; intros [= <-]; simpl; logs.
  - fold src_path dst_path in Hc.
    destruct (Hcopy _ _ (λ _ _ H, H) (λ _ _ H, H) Hc) as (c & ? & ? & ? & ?).
    exists c. repeat split; try done; try by apply H2.
    unfold copies_made. logs. rewrite List.filter_app, length_app. simpl. lia.
  - revert Hc. logs. intros Hc. fold src_path dst_path in Hc.
    pose proof (makedirs_fuel_files _ _ _ _ Hmk) as Hback.
    apply makedirs_inr in Hmk as (_ & _ & Hkeep).
    destruct (Hcopy _ _ Hkeep Hback Hc) as (c & ? & ? & ? & ?).
    exists c. repeat split; try done; try by apply H2.
    unfold copies_made. logs. rewrite List.filter_app, length_app. simpl. lia.
Qed.

Lemma rsplit_sep_endswith p :
  posixpath.endswith_sep p = true → posixpath.rsplit_sep p = (p, EmptyString).
Proof.
  induction p as [|c p IH]; [done|]. destruct p as [|c' p].
  - simpl. by intros ->.
  - intros H. specialize (IH H).
    change (posixpath.rsplit_sep (String c (String c' p)))
      with (match posixpath.rsplit_sep (String c' p) with
            | (EmptyString, t) =>
                if posixpath.is_sep c then (String c EmptyString, t)
                else (EmptyString, String c t)
            | (h, t) => (String c h, t)
            end).
    by rewrite IH.
Qed.

(** X9.  The empty file name names no file: in a well-formed file system
    [isfile('')] is false for every [Directory], and so is
    [target_exists('')] for every [DirectoryMap]. *)
Theorem isfile_of_empty_name (d : Directory) (dm : DirectoryMap) (w : world) :
  well_formed (files w) →
  (Directory_.isfile EmptyString (State d w)).1 = Return false
  ∧ (DirectoryMap_.target_exists (Some EmptyString) (State dm w)).1 = Return false.
Proof.
  intros Hwf.
  assert (∀ dir, fs.isfile (files w) (posixpath.join dir [EmptyString]) = false) as H.
  { intros dir. apply not_true_iff_false. intros (c & Hc)%isfile_true.
    apply (well_formed_file _ _ _ Hwf) in Hc as (Hb & _). apply Hb.
    unfold posixpath.join. simpl. unfold posixpath.join2. simpl.
    destruct (bool_decide (dir = EmptyString) || posixpath.endswith_sep dir) eqn:E.
    - rewrite string_app_nil_r. apply orb_prop in E as [E%bool_decide_eq_true|E].
      + by subst dir.
      + unfold posixpath.basename. by rewrite rsplit_sep_endswith.
    - unfold posixpath.basename.
      change (dir +:+ "/" +:+ EmptyString) with (dir +:+ "/").
      by rewrite rsplit_sep_app_sep. }
  split.
  - by rewrite isfile_run, H.
  - by rewrite target_exists_run; simpl; rewrite H.
Qed.

(** An absolute segment makes [join] forget what came before it. *)
Lemma join_absolute_segment a before b after :
  posixpath.startswith_sep b = true →
  posixpath.join a (before ++ b :: after) = posixpath.join b after.
Proof.
  intros Hb. unfold posixpath.join. rewrite fold_left_app. simpl.
  unfold posixpath.join2 at 2. by rewrite Hb.
Qed.

(** X10.  A destination name that starts with a separator leaves the
    target directory: [get_path] returns the name itself, and a [copy_file]
    that returns records as [last_copy_path] that name (followed by
    [new_ext] on a conflict), where, unless a directory is there, the
    content of the source file now is; the path of the target directory
    plays no part. *)
Theorem copy_file_absolute_name_escapes (src_name file_name new_ext : string)
    (overwrite : bool) (dm : DirectoryMap) (S : Directory) (w : world)
    (s' : state DirectoryMap) :
  let d := if fs.isfile (files w) file_name && negb overwrite
           then file_name +:+ new_ext else file_name in
  posixpath.startswith_sep file_name = true →
  source_dir dm = Some S →
  DirectoryMap_.copy_file src_name (Some file_name) overwrite new_ext (State dm w)
    = (Return tt, s') →
  (Directory_.get_path (Some file_name) (State (target_dir dm) w)).1
    = Return file_name
  ∧ last_copy_path (self s') = Some d
  ∧ (fs.isdir (files (env s')) d = false →
     ∃ c, fs.lookup_node (files w) (posixpath.join (_dir_path S) [src_name])
            = Some (File c)
          ∧ fs.lookup_node (files (env s')) d = Some (File c)).
Proof.
  intros d Habs HS Hrun.
  assert (posixpath.join (_dir_path (target_dir dm)) [file_name] = file_name) as Hjoin.
  { unfold posixpath.join. simpl. unfold posixpath.join2. by rewrite Habs. }
  split; [by rewrite get_path_run, Hjoin|].
  pose proof (copy_file_records_written_path src_name (Some file_name) overwrite
                new_ext dm S w s' HS Hrun) as Hrec.
  simpl in Hrec. unfold destination in Hrec. by rewrite Hjoin in Hrec.
Qed.

Section constructor_paths.

Variable realpath abspath : gmap string node → string → string.
Variable user_data_dir : string → string → bool → string.
Variable site_data_dir : string → string → string.

(** X11.  A path segment that starts with a separator makes each of the
    three construction strategies forget what precedes it: the module
    directory, the user data directory or the site data directory, and the
    earlier segments.  The directory built is the join of that segment with
    the segments after it. *)
Theorem constructors_absolute_segment (module_name package company : string)
    (before after : list string) (b : string) (mod_handle : pymodule)
    (f : string) (w : world) :
  posixpath.startswith_sep b = true →
  sys_modules w !! module_name = Some mod_handle →
  __file__ mod_handle = Some f →
  (ObjDirectory realpath abspath module_name (before ++ b :: after)
     (State tt w)).1
    = Return (Directory_.__init__ (posixpath.join b after))
  ∧ (UserDataDirectory user_data_dir package company (before ++ b :: after)
       (State tt w)).1
      = Return (Directory_.__init__ (posixpath.join b after))
  ∧ (SiteDataDirectory site_data_dir package company (before ++ b :: after)
       (State tt w)).1
      = Return (Directory_.__init__ (posixpath.join b after)).
Proof.
  intros Hb Hmod Hfile. split; [|split].
  - rewrite ObjDirectory_run, Hmod, Hfile. simpl.
    by rewrite join_absolute_segment.
  - unfold UserDataDirectory. simpl. by rewrite join_absolute_segment.
  - unfold SiteDataDirectory. simpl. by rewrite join_absolute_segment.
Qed.

(** X12.  Constructing an [ObjDirectory] for a module that is loaded but
    has no [__file__] (a built-in module) raises [AttributeError], which is
    not a [LookupError], and leaves the world unchanged. *)
Theorem ObjDirectory_module_without_file (module_name : string)
    (paths : list string) (mod_handle : pymodule) (w : world) :
  sys_modules w !! module_name = Some mod_handle →
  __file__ mod_handle = None →
  ∃ e, ObjDirectory realpath abspath module_name paths (State tt w)
         = (Raise e, State tt w)
       ∧ exc_class e = AttributeError
       ∧ isinstance e LookupError = false.
Proof.
  intros Hmod Hfile. eexists. rewrite ObjDirectory_run, Hmod, Hfile. done.
Qed.

End constructor_paths.

(* ===================================================================== *)
(** * [setup.py]: cleaning compiled files *)
(* ===================================================================== *)

Lemma startswith_spec s item :
  str.startswith s item = true ↔ ∃ after, s = item +:+ after.
Proof.
  revert s. induction item as [|a item IH]; intros s.
  - split; [|by destruct s]. intros _. by exists s.
  - destruct s as [|b s]; simpl.
    + split; [done|]. intros [after H]. by rewrite string_app_cons in H.
    + rewrite andb_true_iff, bool_decide_eq_true, IH. split.
      * intros [-> [after ->]]. by exists after.
      * intros [after H]. rewrite string_app_cons in H. injection H as -> ->. eauto.
Qed.

Lemma find_nil item :
  str.find EmptyString item
    = if str.startswith EmptyString item then 0%Z else (-1)%Z.
Proof. reflexivity. Qed.

Lemma find_cons c s item :
  str.find (String c s) item
    = if str.startswith (String c s) item then 0%Z
      else if bool_decide (str.find s item = (-1)%Z) then (-1)%Z
           else (str.find s item + 1)%Z.
Proof. reflexivity. Qed.

Lemma find_range s item : (-1 ≤ str.find s item)%Z.
Proof.
  induction s as [|c s IH].
  - rewrite find_nil. destruct (str.startswith _ _); lia.
  - rewrite find_cons. destruct (str.startswith _ _); [lia|]. case_bool_decide; lia.
Qed.

(** [s.find(item) != -1] exactly when [item] occurs in [s]. *)
Lemma find_occurs s item : str.find s item ≠ (-1)%Z ↔ occurs item s.
Proof.
  induction s as [|c s IH].
  - rewrite find_nil. destruct (str.startswith EmptyString item) eqn:E.
    + split; [|done]. intros _. apply startswith_spec in E as [after E].
      by exists EmptyString, after.
    + split; [done|]. intros (before & after & H).
      destruct before; [|by rewrite string_app_cons in H].
      rewrite string_app_nil_l in H.
      assert (str.startswith EmptyString item = true) by (apply startswith_spec; eauto).
      congruence.
  - rewrite find_cons. destruct (str.startswith (String c s) item) eqn:E.
    + split; [|done]. intros _. apply startswith_spec in E as [after E].
      by exists EmptyString, after.
    + pose proof (find_range s item) as Hrange. case_bool_decide as Hr.
      * split; [done|]. intros (before & after & H). destruct before as [|b before].
        -- rewrite string_app_nil_l in H.
           assert (str.startswith (String c s) item = true)
             by (apply startswith_spec; eauto).
           congruence.
        -- rewrite string_app_cons in H. injection H as -> ->.
           exfalso. apply IH; [|done]. by exists before, after.
      * split; [|lia]. intros _. apply IH in Hr as (before & after & ->).
        exists (String c before), after. by rewrite string_app_cons.
Qed.

Lemma occurs_inside item s before after :
  occurs item s → occurs item (before +:+ s +:+ after).
Proof.
  intros (b & a & ->). exists (before +:+ b), (a +:+ after).
  by rewrite !string_app_assoc.
Qed.

Lemma is_exclude_loop_spec items path :
  CleanPyc.is_exclude_loop items path = true
  ↔ ∃ item, item ∈ items ∧ occurs item path.
Proof.
  induction items as [|item items IH]; simpl.
  - split; [done|]. intros (item & Hin & _). by apply elem_of_nil in Hin.
  - case_bool_decide as Hf; simpl.
    + rewrite IH. split.
      * intros (i & Hin & Ho). exists i. split; [by right|done].
      * intros (i & Hin & Ho). apply elem_of_cons in Hin as [->|Hin]; [|eauto].
        apply find_occurs in Ho. done.
    + split; [|done]. intros _. exists item. split; [by left|].
      by apply find_occurs.
Qed.

(** X14.  [CleanPyc.is_exclude(path)] is true exactly when one of the
    markers of [exclude_list] occurs somewhere in [path]; hence a path that
    is excluded stays excluded under any prefix and suffix (everything below
    an excluded directory is excluded), and the empty path is not
    excluded. *)
Theorem is_exclude_substring (path before after : string) :
  (CleanPyc.is_exclude path = true
   ↔ ∃ item, item ∈ CleanPyc.exclude_list ∧ occurs item path)
  ∧ (CleanPyc.is_exclude path = true →
     CleanPyc.is_exclude (before +:+ path +:+ after) = true)
  ∧ CleanPyc.is_exclude EmptyString = false.
Proof.
  split; [apply is_exclude_loop_spec|]. split; [|done].
  unfold CleanPyc.is_exclude. rewrite !is_exclude_loop_spec.
  intros (item & Hin & Ho). exists item. split; [done|].
  by apply occurs_inside.
Qed.

Lemma endswith_spec s suffix :
  str.endswith s suffix = true ↔ ∃ before, s = before +:+ suffix.
Proof.
  induction s as [|c s IH]; simpl.
  - rewrite orb_false_r, bool_decide_eq_true. split.
    + intros <-. by exists EmptyString.
    + intros [before H]. destruct before; [done|by rewrite string_app_cons in H].
  - rewrite orb_true_iff, bool_decide_eq_true, IH. split.
    + intros [<-|[before ->]]; [by exists EmptyString|].
      exists (String c before). by rewrite string_app_cons.
    + intros [[|b before] H].
      * left. by rewrite string_app_nil_l in H.
      * right. rewrite string_app_cons in H. injection H as -> ->. eauto.
Qed.

Lemma is_pyc_join root fname :
  CleanPyc.is_pyc fname = true →
  CleanPyc.is_pyc (posixpath.join root [fname]) = true.
Proof.
  unfold CleanPyc.is_pyc. rewrite !endswith_spec. intros [before ->].
  unfold posixpath.join. simpl. unfold posixpath.join2.
  destruct (posixpath.startswith_sep _); [eauto|].
  destruct (_ || _).
  - exists (root +:+ before). by rewrite string_app_assoc.
  - exists (root +:+ "/" +:+ before). by rewrite !string_app_assoc.
Qed.

Lemma pickup_files_spec root files p :
  p ∈ CleanPyc.pickup_files root files
  ↔ ∃ fname, fname ∈ files
             ∧ CleanPyc.is_exclude root = false
             ∧ CleanPyc.is_pyc fname = true
             ∧ p = posixpath.join root [fname].
Proof.
  induction files as [|fname files IH]; simpl.
  - split; [by intros ?%elem_of_nil|]. intros (f & Hin & _). by apply elem_of_nil in Hin.
  - destruct (CleanPyc.is_exclude root) eqn:Hex.
    + rewrite IH. split; intros (f & _ & ? & _); done.
    + destruct (CleanPyc.is_pyc fname) eqn:Hpyc; simpl.
      * rewrite elem_of_cons, IH. split.
        -- intros [->|(f & Hin & ? & ? & ->)].
           ++ exists fname. split; [by left|done].
           ++ exists f. split; [by right|done].
        -- intros (f & [->|Hin]%elem_of_cons & ? & ? & ->); [by left|].
           right. by exists f.
      * rewrite IH. split.
        -- intros (f & Hin & ?). exists f. split; [by right|done].
        -- intros (f & [->|Hin]%elem_of_cons & ? & ? & ->); [congruence|].
           by exists f.
Qed.

Lemma pickup_pyc_spec (walk : list (string * list string * list string)) p :
  p ∈ CleanPyc.pickup_pyc walk
  ↔ ∃ root dirs files fname,
      (root, dirs, files) ∈ walk
      ∧ fname ∈ files
      ∧ CleanPyc.is_exclude root = false
      ∧ CleanPyc.is_pyc fname = true
      ∧ p = posixpath.join root [fname].
Proof.
  induction walk as [|[[root dirs] files] walk IH]; simpl.
  - split; [by intros ?%elem_of_nil|].
    intros (? & ? & ? & ? & Hin & _). by apply elem_of_nil in Hin.
  - rewrite elem_of_app, pickup_files_spec, IH. split.
    + intros [(f & ? & ? & ? & ?)|(r & d & fs & f & ? & ?)].
      * exists root, dirs, files, f. split; [by left|done].
      * exists r, d, fs, f. split; [by right|done].
    + intros (r & d & fs & f & [[= -> -> ->]|Hin]%elem_of_cons & ?).
      * left. by exists f.
      * right. by exists r, d, fs, f.
Qed.

Lemma pickup_pyc_is_pyc (walk : list (string * list string * list string)) p :
  p ∈ CleanPyc.pickup_pyc walk → CleanPyc.is_pyc p = true.
Proof.
  intros (root & dirs & files & fname & _ & _ & _ & Hpyc & ->)%pickup_pyc_spec.
  by apply is_pyc_join.
Qed.

(** X15.  [CleanPyc.pickup_pyc] yields exactly the joins of a walked
    directory that is not excluded with one of its file names that ends with
    [.pyc]; every path it yields ends with [.pyc]. *)
Theorem pickup_pyc_yields (walk : list (string * list string * list string))
    (p : string) :
  (p ∈ CleanPyc.pickup_pyc walk
   ↔ ∃ root dirs files fname,
       (root, dirs, files) ∈ walk
       ∧ fname ∈ files
       ∧ CleanPyc.is_exclude root = false
       ∧ CleanPyc.is_pyc fname = true
       ∧ p = posixpath.join root [fname])
  ∧ (p ∈ CleanPyc.pickup_pyc walk → CleanPyc.is_pyc p = true).
Proof. split; [apply pickup_pyc_spec | apply pickup_pyc_is_pyc]. Qed.

Lemma remove_inr path m m' :
  CleanPyc.remove path m = inr m' →
  m' = delete path m
  ∧ posixpath.is_root path = false
  ∧ ∃ c, fs.lookup_node m path = Some (File c).
Proof.
  unfold CleanPyc.remove.
  destruct (fs.lookup_node m path) as [[c|]|] eqn:E; try done.
  intros [= <-]. split; [done|]. split; [|eauto].
  destruct (posixpath.is_root path) eqn:Hr; [|done].
  by rewrite lookup_node_root in E.
Qed.

Lemma lookup_node_delete_eq m p :
  posixpath.is_root p = false → fs.lookup_node (delete p m) p = None.
Proof. intros Hr. unfold fs.lookup_node. rewrite Hr. apply lookup_delete_eq. Qed.

Lemma lookup_node_delete_ne m p q :
  p ≠ q → fs.lookup_node (delete p m) q = fs.lookup_node m q.
Proof.
  intros Hne. unfold fs.lookup_node. destruct (posixpath.is_root q); [done|].
  by apply lookup_delete_ne.
Qed.

(** The loop of [run] removes regular files among the paths it is given,
    and touches nothing else. *)
Lemma run_loop_effect paths s q :
  let s' := (CleanPyc.run_loop paths s).2 in
  fs.lookup_node (CleanPyc.script_files s') q
    = fs.lookup_node (CleanPyc.script_files s) q
  ∨ fs.lookup_node (CleanPyc.script_files s') q = None
    ∧ (∃ c, fs.lookup_node (CleanPyc.script_files s) q = Some (File c))
    ∧ q ∈ paths.
Proof.
  revert s. induction paths as [|p paths IH]; intros s; simpl; [by left|].
  destruct (CleanPyc.remove p (CleanPyc.script_files s)) as [e|m] eqn:E; simpl;
    [by left|].
  apply remove_inr in E as (-> & Hroot & c & Hc).
  destruct (IH (CleanPyc.Script (delete p (CleanPyc.script_files s))
                  (CleanPyc.stdout s ++ ["remove pyc: " +:+ p])) ) as [Hsame|(Hnone & [c' Hc'] & Hin)];
    simpl in *.
  - destruct (decide (p = q)) as [->|Hne].
    + right. rewrite Hsame, lookup_node_delete_eq by done.
      split; [done|]. split; [eauto|by left].
    + left. by rewrite Hsame, lookup_node_delete_ne.
  - right. split; [done|]. split; [|by right].
    destruct (decide (p = q)) as [->|Hne]; [eauto|].
    rewrite lookup_node_delete_ne in Hc' by done. eauto.
Qed.

(** X16.  [CleanPyc.run], however it ends, leaves every path as it was,
    except that a regular file may be gone; a file that is gone is one of
    the paths [pickup_pyc] yields, and its path ends with [.pyc].  No
    directory is removed and nothing is created or changed. *)
Theorem run_removes_only_pyc_files
    (walk : list (string * list string * list string))
    (s : CleanPyc.script_state) (q : string) :
  let s' := (CleanPyc.run walk s).2 in
  fs.lookup_node (CleanPyc.script_files s') q
    = fs.lookup_node (CleanPyc.script_files s) q
  ∨ fs.lookup_node (CleanPyc.script_files s') q = None
    ∧ (∃ c, fs.lookup_node (CleanPyc.script_files s) q = Some (File c))
    ∧ q ∈ CleanPyc.pickup_pyc walk
    ∧ CleanPyc.is_pyc q = true.
Proof.
  simpl. unfold CleanPyc.run.
  pose proof (run_loop_effect (CleanPyc.pickup_pyc walk)
                (CleanPyc.print "start cleanup pyc files." s) q) as H.
  simpl in H.
  destruct (CleanPyc.run_loop _ _) as [[[]|e] s2]; simpl in *.
  - destruct H as [H|(H1 & H2 & H3)]; [by left|right].
    repeat split; try done. by apply (pickup_pyc_is_pyc walk q).
  - destruct H as [H|(H1 & H2 & H3)]; [by left|right].
    repeat split; try done. by apply (pickup_pyc_is_pyc walk q).
Qed.

Lemma run_loop_returns paths s s' :
  CleanPyc.run_loop paths s = (Return tt, s') →
  (∀ q, q ∈ paths → fs.lookup_node (CleanPyc.script_files s') q = None)
  ∧ CleanPyc.stdout s'
      = CleanPyc.stdout s ++ ((λ p, "remove pyc: " +:+ p) <$> paths).
Proof.
  revert s. induction paths as [|p paths IH]; intros s; simpl.
  - intros [= <-]. split; [by intros q ?%elem_of_nil|by rewrite app_nil_r].
  - destruct (CleanPyc.remove p (CleanPyc.script_files s)) as [e|m] eqn:E; [done|].
    intros Hrun.
    pose proof (run_loop_effect paths
                  (CleanPyc.Script m (CleanPyc.stdout s ++ ["remove pyc: " +:+ p])) p)
      as Heff.
    simpl in Heff. rewrite Hrun in Heff. simpl in Heff.
    apply IH in Hrun as [Hnone Hout]. simpl in *.
    apply remove_inr in E as (-> & Hroot & _).
    split.
    + intros q [->|Hin]%elem_of_cons; [|by apply Hnone].
      destruct Heff as [->|[? _]]; [|done]. by apply lookup_node_delete_eq.
    + by rewrite Hout, <- app_assoc.
Qed.

(** X17.  When [CleanPyc.run] returns, none of the paths that [pickup_pyc]
    yields names an entry any more, and the script has printed the start
    line, one line per removed path in the order of the walk, and the end
    line. *)
Theorem run_returns_all_removed
    (walk : list (string * list string * list string))
    (s s' : CleanPyc.script_state) :
  CleanPyc.run walk s = (Return tt, s') →
  (∀ q, q ∈ CleanPyc.pickup_pyc walk →
        fs.lookup_node (CleanPyc.script_files s') q = None)
  ∧ CleanPyc.stdout s'
      = CleanPyc.stdout s
        ++ ["start cleanup pyc files."]
        ++ ((λ p, "remove pyc: " +:+ p) <$> CleanPyc.pickup_pyc walk)
        ++ ["the end."].
Proof.
  unfold CleanPyc.run.
  destruct (CleanPyc.run_loop _ _) as [[[]|e] s2] eqn:Hloop; [|done].
  intros [= <-]. apply run_loop_returns in Hloop as [Hnone Hout]. simpl in *.
  split; [done|]. by rewrite Hout, <- !app_assoc.
Qed.

Lemma run_loop_total paths s :
  NoDup paths →
  (∀ q, q ∈ paths → fs.isfile (CleanPyc.script_files s) q = true) →
  ∃ s', CleanPyc.run_loop paths s = (Return tt, s').
Proof.
  revert s. induction paths as [|p paths IH]; intros s Hnd Hfiles; simpl; [eauto|].
  apply NoDup_cons in Hnd as [Hnotin Hnd].
  assert (fs.isfile (CleanPyc.script_files s) p = true) as [c Hc]%isfile_true
    by (apply Hfiles; by left).
  unfold CleanPyc.remove. simpl. rewrite Hc.
  apply IH; [done|]. intros q Hq. simpl.
  apply isfile_true. rewrite lookup_node_delete_ne by (intros ->; done).
  apply isfile_true, Hfiles. by right.
Qed.

(** X18.  [CleanPyc.run] returns when the paths that [pickup_pyc] yields
    are distinct and each of them is a regular file. *)
Theorem run_returns_when_files_are_there
    (walk : list (string * list string * list string))
    (s : CleanPyc.script_state) :
  NoDup (CleanPyc.pickup_pyc walk) →
  (∀ q, q ∈ CleanPyc.pickup_pyc walk →
        fs.isfile (CleanPyc.script_files s) q = true) →
  ∃ s', CleanPyc.run walk s = (Return tt, s').
Proof.
  intros Hnd Hfiles. unfold CleanPyc.run.
  destruct (run_loop_total (CleanPyc.pickup_pyc walk)
              (CleanPyc.print "start cleanup pyc files." s) Hnd Hfiles)
    as [s2 ->].
  eauto.
Qed.

(** The loop of [run] raises at the first path that [os.remove] refuses:
    the paths before it are removed and announced, and nothing else is
    touched. *)
Lemma run_loop_raises paths s e s' :
  CleanPyc.run_loop paths s = (Raise e, s') →
  ∃ before p after,
    paths = before ++ p :: after
    ∧ exc_class e = OSError
    ∧ exc_arg e = p
    ∧ CleanPyc.script_files s'
        = foldl (λ m q, delete q m) (CleanPyc.script_files s) before
    ∧ fs.isfile (CleanPyc.script_files s') p = false
    ∧ Forall (λ q, posixpath.is_root q = false) before
    ∧ CleanPyc.stdout s'
        = CleanPyc.stdout s
          ++ ((λ p, "remove pyc: " +:+ p) <$> before)
          ++ ["remove pyc: " +:+ p].
Proof.
  revert s. induction paths as [|p paths IH]; intros s; simpl; [done|].
  destruct (CleanPyc.remove p (CleanPyc.script_files s)) as [e'|m] eqn:E.
  - intros [= <- <-]. exists [], p, paths. simpl.
    unfold CleanPyc.remove in E. unfold fs.isfile.
    destruct (fs.lookup_node (CleanPyc.script_files s) p) as [[c|]|]; [done| |];
      injection E as <-; by repeat split.
  - intros (before & p' & after & -> & Hcls & Harg & Hfiles & Hnot & Hroots & Hout)%IH.
    apply remove_inr in E as (-> & Hroot & _). simpl in *.
    exists (p :: before), p', after. repeat split; try done.
    + by constructor.
    + by rewrite Hout, <- app_assoc.
Qed.

Lemma lookup_node_delete_all before m q :
  q ∉ before →
  fs.lookup_node (foldl (λ m q, delete q m) m before) q = fs.lookup_node m q.
Proof.
  revert m. induction before as [|p before IH]; intros m; [done|].
  intros [Hne Hnot]%not_elem_of_cons. simpl.
  by rewrite IH, lookup_node_delete_ne.
Qed.

Lemma lookup_node_deleted before m q :
  q ∈ before → Forall (λ q, posixpath.is_root q = false) before →
  fs.lookup_node (foldl (λ m q, delete q m) m before) q = None.
Proof.
  revert m. induction before as [|p before IH]; intros m; [by intros ?%elem_of_nil|].
  intros Hin [Hp Hroots]%Forall_cons. simpl.
  destruct (decide (q ∈ before)) as [Hq|Hq]; [by apply IH|].
  apply elem_of_cons in Hin as [->|]; [|done].
  by rewrite lookup_node_delete_all, lookup_node_delete_eq.
Qed.


(* ===================================================================== *)
(** * The further properties at concrete inputs *)
(* ===================================================================== *)

(** Overwriting [conf/a] with the packaged [a]. *)
Lemma copy_file_overwrites_witness :
  ∃ w',
    DirectoryMap_.copy_file "a" (Some "a") true ".new" (State conf_map conf_world)
      = (Return tt, State (set_last_copy_path (Some "conf/a") conf_map) w')
    ∧ fs.lookup_node (files w') "conf/a" = Some (File "v2").
Proof.
  destruct (copy_file_overwrites_in_place "a" "a" ".new" true conf_map
              (Directory_.__init__ "defaults") conf_world "user" "v2")
    as (w' & Hrun & _ & Hnew);
    [by left | reflexivity | exact well_formed_conf | by vm_compute
    | by vm_compute | by vm_compute | done |].
  exists w'. split; [exact Hrun | exact Hnew].
Defined.


Lemma copy_file_run_example :
  DirectoryMap_.copy_file "a" (Some "b") false ".new" (State conf_map conf_world)
    = (Return tt, State (set_last_copy_path (Some "conf/b") conf_map) copied_b_world).
Proof. by vm_compute. Qed.

(** [conf] is still a directory after a copy into it. *)
Lemma copy_file_leaves_target_witness :
  fs.isdir (files copied_b_world) "conf" = true.
Proof.
  exact (proj1 (copy_file_leaves_target_directory "a" (Some "b") false ".new"
                  conf_map conf_world
                  (State (set_last_copy_path (Some "conf/b") conf_map) copied_b_world)
                  copy_file_run_example)).
Defined.


(** The copy of [defaults/a] to [conf/b] writes [conf/b] and no other file. *)
Lemma copy_file_writes_one_file_witness :
  ∃ c,
    fs.lookup_node conf_files "defaults/a" = Some (File c)
    ∧ "conf/b" ≠ "defaults/a"
    ∧ fs.lookup_node (files copied_b_world) "conf/b" = Some (File c)
    ∧ (∀ q c', q ≠ "conf/b" →
         (fs.lookup_node (files copied_b_world) q = Some (File c')
          ↔ fs.lookup_node conf_files q = Some (File c')))
    ∧ copies_made copied_b_world = 1.
Proof.
  exact (copy_file_writes_one_file "a" (Some "b") false ".new" conf_map
           (Directory_.__init__ "defaults") conf_world
           (State (set_last_copy_path (Some "conf/b") conf_map) copied_b_world)
           eq_refl copy_file_run_example).
Defined.

Lemma safe_copy_file_run_example :
  DirectoryMap_.safe_copy_file "a" (Some "b") (State conf_map conf_world)
    = (Return tt,
       State (set_last_copy_path (Some "conf/b") conf_map) provisioned_b_world).
Proof. by vm_compute. Qed.

(** Provisioning [conf/b] once; three more calls copy nothing. *)
Lemma safe_copy_file_provisions_once_witness :
  (∃ c, fs.lookup_node conf_files "defaults/a" = Some (File c)
        ∧ fs.lookup_node (files provisioned_b_world) "conf/b" = Some (File c))
  ∧ ∃ w'', repeat_call 3 (DirectoryMap_.safe_copy_file "a" (Some "b"))
             (State (set_last_copy_path (Some "conf/b") conf_map)
                provisioned_b_world)
             = (Return tt, State (set_last_copy_path (Some "conf/b") conf_map) w'')
           ∧ files w'' = files provisioned_b_world
           ∧ copies_made w'' = copies_made provisioned_b_world.
Proof.
  destruct (safe_copy_file_provisions_once "a" (Some "b") conf_map
              (Directory_.__init__ "defaults") conf_world
              (State (set_last_copy_path (Some "conf/b") conf_map)
                 provisioned_b_world) eq_refl)
    as (Hfile & _ & Hmany);
    [by vm_compute | exact safe_copy_file_run_example | by vm_compute |].
  split; [exact Hfile | exact (Hmany 3)].
Defined.

(** No file of [conf] has the empty name. *)
Lemma isfile_of_empty_name_witness :
  (Directory_.isfile EmptyString (State (Directory_.__init__ "conf") conf_world)).1
    = Return false
  ∧ (DirectoryMap_.target_exists (Some EmptyString) (State conf_map conf_world)).1
      = Return false.
Proof.
  exact (isfile_of_empty_name (Directory_.__init__ "conf") conf_map conf_world
           well_formed_conf).
Defined.

Lemma copy_file_absolute_example :
  DirectoryMap_.copy_file "a" (Some "/a.bak") false ".new" (State conf_map conf_world)
    = (Return tt,
       State (set_last_copy_path (Some "/a.bak") conf_map) copied_outside_world).
Proof. by vm_compute. Qed.

(** An absolute destination name: the file is written outside [conf]. *)
Lemma copy_file_absolute_name_witness :
  (Directory_.get_path (Some "/a.bak") (State (target_dir conf_map) conf_world)).1
    = Return "/a.bak"
  ∧ ∃ c, fs.lookup_node conf_files "defaults/a" = Some (File c)
         ∧ fs.lookup_node (files copied_outside_world) "/a.bak" = Some (File c).
Proof.
  destruct (copy_file_absolute_name_escapes "a" "/a.bak" ".new" false conf_map
              (Directory_.__init__ "defaults") conf_world
              (State (set_last_copy_path (Some "/a.bak") conf_map)
                 copied_outside_world)
              eq_refl eq_refl copy_file_absolute_example) as (Hpath & _ & Hfile).
  split; [exact Hpath|]. apply Hfile. by vm_compute.
Defined.

(** An absolute segment after [examples]. *)
Lemma constructors_absolute_segment_witness :
  (ObjDirectory (λ _ p, p) (λ _ p, p) "polite.paths" ["examples"; "/etc"; "polite"]
     (State tt loaded_world)).1
    = Return (Directory_.__init__ "/etc/polite")
  ∧ (UserDataDirectory (λ _ _ _, "/home/user/.local/share/polite") "polite" "acme"
       ["examples"; "/etc"; "polite"] (State tt loaded_world)).1
      = Return (Directory_.__init__ "/etc/polite").
Proof.
  destruct (constructors_absolute_segment (λ _ p, p) (λ _ p, p)
              (λ _ _ _, "/home/user/.local/share/polite") (λ _ _, "/usr/share/polite")
              "polite.paths" "polite" "acme" ["examples"] ["polite"] "/etc"
              (PyModule (Some "/site/polite/paths.py")) "/site/polite/paths.py"
              loaded_world eq_refl)
    as (Hobj & Huser & _); [by vm_compute | reflexivity |].
  split; [exact Hobj | exact Huser].
Defined.

(** [sys] is loaded and has no file. *)
Lemma ObjDirectory_module_without_file_witness :
  ∃ e, ObjDirectory (λ _ p, p) (λ _ p, p) "sys" [] (State tt loaded_world)
         = (Raise e, State tt loaded_world)
       ∧ exc_class e = AttributeError
       ∧ isinstance e LookupError = false.
Proof.
  apply (ObjDirectory_module_without_file (λ _ p, p) (λ _ p, p) "sys" []
           (PyModule None) loaded_world); [by vm_compute | reflexivity].
Defined.

Example project_pickup :
  CleanPyc.pickup_pyc project_walk = ["/proj/setup.pyc"; "/proj/pkg/a.pyc"].
Proof. by vm_compute. Qed.

Lemma project_run_example :
  CleanPyc.run project_walk project_state = (Return tt, cleaned_state).
Proof. by vm_compute. Qed.

(** Cleaning the project: both compiled files are gone, and the script has
    said so. *)
Lemma run_returns_all_removed_witness :
  fs.lookup_node (CleanPyc.script_files cleaned_state) "/proj/setup.pyc" = None
  ∧ fs.lookup_node (CleanPyc.script_files cleaned_state) "/proj/pkg/a.pyc" = None
  ∧ CleanPyc.stdout cleaned_state
      = ["start cleanup pyc files."; "remove pyc: /proj/setup.pyc";
         "remove pyc: /proj/pkg/a.pyc"; "the end."].
Proof.
  destruct (run_returns_all_removed project_walk project_state cleaned_state
              project_run_example) as [Hnone _].
  split; [|split; [|reflexivity]]; apply Hnone; rewrite project_pickup.
  - by left.
  - right. by left.
Defined.

(** Both compiled files of the project are there, so cleaning returns. *)
Lemma run_returns_witness :
  ∃ s', CleanPyc.run project_walk project_state = (Return tt, s').
Proof.
  apply run_returns_when_files_are_there; rewrite project_pickup.
  - apply (bool_decide_unpack _). by vm_compute.
  - intros q [->|[->|Hq%elem_of_nil]%elem_of_cons]%elem_of_cons;
      [by vm_compute | by vm_compute | done].
Defined.

Lemma stale_run_example :
  CleanPyc.run stale_walk project_state
    = (Raise (os_error ENOENT "/proj/gone.pyc"), stale_state).
Proof. by vm_compute. Qed.

